(** * vapush: file-backed subscription store, broadcast dispatcher and
    shared-secret HTTP front end

    A shallow embedding of [src/index.ts] (class [Vapush]) and of the
    request handler of [src/server.ts], together with the parts of the
    JavaScript platform those few lines lean on: [JSON.stringify],
    [JSON.parse], property lookup on a plain object and object spread.

    Conventions.
    - A JavaScript string is modelled by the bytes of its UTF-8 encoding
      ([string]); [JSON.stringify] leaves every byte above the control
      range untouched, so this is what ends up in the files.
    - The own properties of the [subscriptions] object are a
      [gmap string _]; the enumeration order of [Object.keys] is the
      canonical order of the map (the source relies on no order).
    - [name?: string] is an [option string]: an absent property and a
      property holding [undefined] are the same value of that type and
      [JSON.stringify] drops both.
    - The push library, the clock and the key generator are collaborators
      whose answers are not determined by this repository; they are the
      fields of the class [Collaborators], threaded through an explicit
      world state.
    - Each method runs to completion on its own (no other request is
      interleaved at an [await]), and a write into the data directory
      succeeds. *)

From Stdlib Require Import Ascii String NArith ZArith Lia.
From stdpp Require Import base option strings pretty list gmap fin_maps.

Open Scope string_scope.

(** ** JSON text, as produced by [JSON.stringify] and read by [JSON.parse] *)

Module JSON.

#[local] Unset Elimination Schemes.
Inductive json : Type :=
| JNull
| JBool (b : bool)
| JNum (lexeme : string)
| JStr (s : string)
| JArr (items : list json)
| JObj (members : list (string * json)).
#[local] Set Elimination Schemes.

Definition dquote : ascii := "034"%char.
Definition backslash : ascii := "092"%char.
Definition LF : ascii := "010"%char.

Definition code (c : ascii) : N := N_of_ascii c.
Definition byte (n : N) : ascii := ascii_of_N n.

Definition hex_digit (n : N) : ascii :=
  byte (if n <? 10 then 48 + n else 87 + n)%N.

(** QuoteJSONString, one code unit at a time: the two-character escapes,
    [\u00xx] (lower-case hex) for the other control characters, everything
    else verbatim. *)
Definition escape_char (c : ascii) : string :=
  let n := code c in
  if (n =? 8)%N then String backslash "b"
  else if (n =? 9)%N then String backslash "t"
  else if (n =? 10)%N then String backslash "n"
  else if (n =? 12)%N then String backslash "f"
  else if (n =? 13)%N then String backslash "r"
  else if (n =? 34)%N then String backslash (String dquote EmptyString)
  else if (n =? 92)%N then String backslash (String backslash EmptyString)
  else if (n <? 32)%N then
    String backslash
      (String "u" (String "0" (String "0"
         (String (hex_digit (n / 16)) (String (hex_digit (n mod 16)) EmptyString)))))
  else String c EmptyString.

Fixpoint escape (s : string) : string :=
  match s with
  | EmptyString => EmptyString
  | String c r => escape_char c +:+ escape r
  end.

Definition quote (s : string) : string :=
  String dquote (escape s +:+ String dquote EmptyString).

Fixpoint spaces (n : nat) : string :=
  match n with
  | O => EmptyString
  | S k => String " " (spaces k)
  end.

(** [JSON.stringify(value, null, gap)] with [gap] spaces per level;
    [gap = 0] is the compact form of [JSON.stringify(value)]. A property
    whose value is [undefined] is never handed to this function: the
    encoders below leave it out, as SerializeJSONObject does. *)
Section Stringify.
Variable gap : nat.

Definition newline_indent (level : nat) : string :=
  match gap with
  | O => EmptyString
  | S _ => String LF (spaces level)
  end.

Definition colon : string :=
  match gap with
  | O => ":"
  | S _ => ": "
  end.

(** What follows the first element of a non-empty array or object:
    the remaining elements, each after a comma, then the closing bracket
    on a line of its own. *)
Definition items_tail (close sep : string) (pr : json → string)
  : list json → string :=
  fix more (l : list json) : string :=
    match l with
    | [] => close
    | y :: l' => sep +:+ pr y +:+ more l'
    end.

Definition members_tail (close sep : string) (pr : json → string)
  : list (string * json) → string :=
  fix more (l : list (string * json)) : string :=
    match l with
    | [] => close
    | (k, y) :: l' => sep +:+ quote k +:+ colon +:+ pr y +:+ more l'
    end.

Fixpoint stringify_at (level : nat) (j : json) : string :=
  match j with
  | JNull => "null"
  | JBool true => "true"
  | JBool false => "false"
  | JNum lexeme => lexeme
  | JStr s => quote s
  | JArr [] => "[]"
  | JArr (x :: xs) =>
      "[" +:+ newline_indent (level + gap) +:+ stringify_at (level + gap) x
      +:+ items_tail (newline_indent level +:+ "]")
            (String "," (newline_indent (level + gap)))
            (stringify_at (level + gap)) xs
  | JObj [] => "{}"
  | JObj ((k, x) :: ms) =>
      "{" +:+ newline_indent (level + gap) +:+ quote k +:+ colon
      +:+ stringify_at (level + gap) x
      +:+ members_tail (newline_indent level +:+ "}")
            (String "," (newline_indent (level + gap)))
            (stringify_at (level + gap)) ms
  end.
End Stringify.

Definition stringify (j : json) : string := stringify_at 0 0 j.
Definition stringify_pretty (j : json) : string := stringify_at 2 0 j.

(** *** Reading: the JSON grammar of ECMA-404, as [JSON.parse] accepts it *)

Definition is_ws (c : ascii) : bool :=
  let n := code c in
  ((n =? 32) || (n =? 10) || (n =? 13) || (n =? 9))%N.

Fixpoint skip_ws (s : string) : string :=
  match s with
  | String c r => if is_ws c then skip_ws r else s
  | EmptyString => s
  end.

Definition head_is (c : ascii) (s : string) : bool :=
  match s with
  | String c' _ => Ascii.eqb c' c
  | EmptyString => false
  end.

Definition tail (s : string) : string :=
  match s with
  | String _ r => r
  | EmptyString => EmptyString
  end.

Definition is_digit (c : ascii) : bool :=
  let n := code c in ((48 <=? n) && (n <=? 57))%N.

Definition hex_value (c : ascii) : option N :=
  let n := code c in
  if ((48 <=? n) && (n <=? 57))%N then Some (n - 48)%N
  else if ((97 <=? n) && (n <=? 102))%N then Some (n - 87)%N
  else if ((65 <=? n) && (n <=? 70))%N then Some (n - 55)%N
  else None.

Definition hex4 (a b c d : ascii) : option N :=
  match hex_value a, hex_value b, hex_value c, hex_value d with
  | Some x, Some y, Some z, Some w => Some (((x * 16 + y) * 16 + z) * 16 + w)%N
  | _, _, _, _ => None
  end.

(** The UTF-8 bytes of a code point (generalised to lone surrogates). *)
Definition utf8 (n : N) (rest : string) : string :=
  if (n <? 128)%N then String (byte n) rest
  else if (n <? 2048)%N then
    String (byte (192 + n / 64)) (String (byte (128 + n mod 64)) rest)
  else if (n <? 65536)%N then
    String (byte (224 + n / 4096))
      (String (byte (128 + (n / 64) mod 64)) (String (byte (128 + n mod 64)) rest))
  else
    String (byte (240 + n / 262144))
      (String (byte (128 + (n / 4096) mod 64))
         (String (byte (128 + (n / 64) mod 64)) (String (byte (128 + n mod 64)) rest))).

Definition is_high_surrogate (n : N) : bool := ((55296 <=? n) && (n <=? 56319))%N.
Definition is_low_surrogate (n : N) : bool := ((56320 <=? n) && (n <=? 57343))%N.

Definition on_tail (f : string → string) (r : option (string * string))
  : option (string * string) :=
  match r with
  | Some (v, rest) => Some (f v, rest)
  | None => None
  end.

(** The low half of a surrogate pair, when the text goes on with one. *)
Definition low_surrogate_escape (s : string) : option (N * string) :=
  match s with
  | String b (String u (String l1 (String l2 (String l3 (String l4 r))))) =>
      if Ascii.eqb b backslash && Ascii.eqb u "u" then
        match hex4 l1 l2 l3 l4 with
        | Some lo => if is_low_surrogate lo then Some (lo, r) else None
        | None => None
        end
      else None
  | _ => None
  end.

(** The characters of a string literal after its opening quote, up to and
    including the closing quote. *)
Fixpoint parse_chars (s : string) : option (string * string) :=
  match s with
  | EmptyString => None
  | String c r =>
      if Ascii.eqb c dquote then Some (EmptyString, r)
      else if Ascii.eqb c backslash then
        match r with
        | String e r1 =>
            if Ascii.eqb e dquote then on_tail (String dquote) (parse_chars r1)
            else if Ascii.eqb e backslash then on_tail (String backslash) (parse_chars r1)
            else if Ascii.eqb e "/" then on_tail (String "/") (parse_chars r1)
            else if Ascii.eqb e "b" then on_tail (String "008") (parse_chars r1)
            else if Ascii.eqb e "f" then on_tail (String "012") (parse_chars r1)
            else if Ascii.eqb e "n" then on_tail (String "010") (parse_chars r1)
            else if Ascii.eqb e "r" then on_tail (String "013") (parse_chars r1)
            else if Ascii.eqb e "t" then on_tail (String "009") (parse_chars r1)
            else if Ascii.eqb e "u" then
              match r1 with
              | String h1 (String h2 (String h3 (String h4 r2))) =>
                  match hex4 h1 h2 h3 h4 with
                  | Some hi =>
                      if is_high_surrogate hi then
                        match r2 with
                        | String _ (String _ (String _ (String _ (String _ (String _ r3))))) =>
                            match low_surrogate_escape r2 with
                            | Some (lo, _) =>
                                on_tail (utf8 (65536 + (hi - 55296) * 1024 + (lo - 56320)))
                                  (parse_chars r3)
                            | None => on_tail (utf8 hi) (parse_chars r2)
                            end
                        | _ => on_tail (utf8 hi) (parse_chars r2)
                        end
                      else on_tail (utf8 hi) (parse_chars r2)
                  | None => None
                  end
              | _ => None
              end
            else None
        | EmptyString => None
        end
      else if (code c <? 32)%N then None
      else on_tail (String c) (parse_chars r)
  end.

Fixpoint take_digits (s : string) : string * string :=
  match s with
  | String c r =>
      if is_digit c then let '(d, rest) := take_digits r in (String c d, rest)
      else (EmptyString, s)
  | EmptyString => (EmptyString, s)
  end.

Definition some_digits (s : string) : option (string * string) :=
  match take_digits s with
  | (EmptyString, _) => None
  | (d, rest) => Some (d, rest)
  end.

(** A number: optional minus, then 0 or a digit string without leading
    zero, then an optional fraction and an optional exponent. The lexeme is
    kept as text. *)
Definition parse_number (s : string) : option (string * string) :=
  let '(sign, s1) :=
    if head_is "-" s then ("-", tail s) else (EmptyString, s) in
  let int_part :=
    if head_is "0" s1 then Some ("0", tail s1) else some_digits s1 in
  match int_part with
  | None => None
  | Some (i, s2) =>
      let frac_part :=
        if head_is "." s2 then on_tail (String ".") (some_digits (tail s2))
        else Some (EmptyString, s2) in
      match frac_part with
      | None => None
      | Some (f, s3) =>
          let exp_part :=
            if head_is "e" s3 || head_is "E" s3 then
              let r := tail s3 in
              let '(sg, r1) :=
                if head_is "+" r then ("+", tail r)
                else if head_is "-" r then ("-", tail r)
                else (EmptyString, r) in
              on_tail (λ d, substring 0 1 s3 +:+ sg +:+ d) (some_digits r1)
            else Some (EmptyString, s3) in
          match exp_part with
          | None => None
          | Some (x, s4) => Some (sign +:+ i +:+ f +:+ x, s4)
          end
      end
  end.

Fixpoint strip_prefix (p s : string) : option string :=
  match p, s with
  | EmptyString, _ => Some s
  | String a p', String b s' => if Ascii.eqb a b then strip_prefix p' s' else None
  | String _ _, EmptyString => None
  end.

Inductive parsed (A : Type) : Type :=
| Parsed (a : A) (rest : string)
| SyntaxError
| OutOfFuel.
Arguments Parsed {A} a rest.
Arguments SyntaxError {A}.
Arguments OutOfFuel {A}.

Definition and_then {A B : Type} (p : parsed A) (k : A → string → parsed B) : parsed B :=
  match p with
  | Parsed a rest => k a rest
  | SyntaxError => SyntaxError
  | OutOfFuel => OutOfFuel
  end.

Definition of_option {A : Type} (o : option (A * string)) : parsed A :=
  match o with
  | Some (a, rest) => Parsed a rest
  | None => SyntaxError
  end.

Definition literal (word : string) (v : json) (s : string) : parsed json :=
  of_option (pair v <$> strip_prefix word s).

(** A member name and its colon. *)
Definition parse_key (s : string) : parsed string :=
  let s1 := skip_ws s in
  if head_is dquote s1 then
    and_then (of_option (parse_chars (tail s1)))
      (λ k r, let r1 := skip_ws r in
              if head_is ":" r1 then Parsed k (tail r1) else SyntaxError)
  else SyntaxError.

(** Recursive descent; [fuel] bounds the depth of the descent and is always
    taken larger than the length of the text (see [parse]). [parse_items]
    and [parse_members] start after a value and expect a comma or the
    closing bracket. *)
Fixpoint parse_value (fuel : nat) (s : string) : parsed json :=
  match fuel with
  | O => OutOfFuel
  | S fuel =>
      match skip_ws s with
      | EmptyString => SyntaxError
      | String c r =>
          if Ascii.eqb c "n" then literal "ull" JNull r
          else if Ascii.eqb c "t" then literal "rue" (JBool true) r
          else if Ascii.eqb c "f" then literal "alse" (JBool false) r
          else if Ascii.eqb c dquote then
            and_then (of_option (parse_chars r)) (λ v rest, Parsed (JStr v) rest)
          else if Ascii.eqb c "[" then
            if head_is "]" (skip_ws r) then Parsed (JArr []) (tail (skip_ws r))
            else
              and_then (parse_value fuel r) (λ x rest,
              and_then (parse_items fuel rest) (λ xs rest',
              Parsed (JArr (x :: xs)) rest'))
          else if Ascii.eqb c "{" then
            if head_is "}" (skip_ws r) then Parsed (JObj []) (tail (skip_ws r))
            else
              and_then (parse_key r) (λ k r1,
              and_then (parse_value fuel r1) (λ x rest,
              and_then (parse_members fuel rest) (λ ms rest',
              Parsed (JObj ((k, x) :: ms)) rest')))
          else
            and_then (of_option (parse_number (String c r)))
              (λ lexeme rest, Parsed (JNum lexeme) rest)
      end
  end
with parse_items (fuel : nat) (s : string) : parsed (list json) :=
  match fuel with
  | O => OutOfFuel
  | S fuel =>
      let s1 := skip_ws s in
      if head_is "]" s1 then Parsed [] (tail s1)
      else if head_is "," s1 then
        and_then (parse_value fuel (tail s1)) (λ x rest,
        and_then (parse_items fuel rest) (λ xs rest',
        Parsed (x :: xs) rest'))
      else SyntaxError
  end
with parse_members (fuel : nat) (s : string) : parsed (list (string * json)) :=
  match fuel with
  | O => OutOfFuel
  | S fuel =>
      let s1 := skip_ws s in
      if head_is "}" s1 then Parsed [] (tail s1)
      else if head_is "," s1 then
        and_then (parse_key (tail s1)) (λ k r1,
        and_then (parse_value fuel r1) (λ x rest,
        and_then (parse_members fuel rest) (λ ms rest',
        Parsed ((k, x) :: ms) rest')))
      else SyntaxError
  end.

(** [JSON.parse(text)]: [None] is the thrown [SyntaxError]. *)
Definition parse (text : string) : option json :=
  match parse_value (S (String.length text)) text with
  | Parsed v rest =>
      match skip_ws rest with
      | EmptyString => Some v
      | String _ _ => None
      end
  | SyntaxError | OutOfFuel => None
  end.

(** *** Induction over values, and the measures used below *)

Section json_induction.
Variable P : json → Prop.
Hypothesis Hnull : P JNull.
Hypothesis Hbool : ∀ b, P (JBool b).
Hypothesis Hnum : ∀ n, P (JNum n).
Hypothesis Hstr : ∀ s, P (JStr s).
Hypothesis Harr : ∀ items, Forall P items → P (JArr items).
Hypothesis Hobj : ∀ members, Forall (λ m, P m.2) members → P (JObj members).

Fixpoint json_ind (j : json) : P j :=
  match j with
  | JNull => Hnull
  | JBool b => Hbool b
  | JNum n => Hnum n
  | JStr s => Hstr s
  | JArr items =>
      Harr items
        ((fix all (l : list json) : Forall P l :=
            match l with
            | [] => Forall_nil_2 P
            | x :: l' => Forall_cons_2 P x l' (json_ind x) (all l')
            end) items)
  | JObj members =>
      Hobj members
        ((fix all (l : list (string * json)) : Forall (λ m, P m.2) l :=
            match l with
            | [] => Forall_nil_2 _
            | m :: l' => Forall_cons_2 (λ m, P m.2) m l' (json_ind m.2) (all l')
            end) members)
  end.
End json_induction.

(** Values [JSON.stringify] produces from strings, arrays and objects:
    no number occurs in them. *)
Fixpoint no_num (j : json) : Prop :=
  match j with
  | JNum _ => False
  | JArr items => foldr (λ x acc, no_num x ∧ acc) True items
  | JObj members => foldr (λ m acc, no_num m.2 ∧ acc) True members
  | _ => True
  end.

(** Fuel that [parse_value] needs for the text of [j]. *)
Fixpoint descent (j : json) : nat :=
  match j with
  | JArr items => S (foldr (λ x acc, S (descent x + acc)) 0 items)
  | JObj members => S (foldr (λ m acc, S (descent m.2 + acc)) 0 members)
  | _ => 1
  end.

(** The first character of a value's text. *)
Definition opens_value (c : ascii) : bool :=
  Ascii.eqb c "n" || Ascii.eqb c "t" || Ascii.eqb c "f" || Ascii.eqb c dquote
  || Ascii.eqb c "[" || Ascii.eqb c "{".

(** [parse_value] reads the text of [j] back, whatever follows it and at
    any indentation, given fuel for the descent. *)
Definition inverts (gap : nat) (j : json) : Prop :=
  no_num j → ∀ level rest fuel, (descent j ≤ fuel)%nat →
  parse_value fuel (stringify_at gap level j +:+ rest) = Parsed j rest.

End JSON.

(** ** Data model ([src/index.ts], interfaces) *)

Record SubscriptionKeys : Type := {
  p256dh : string;
  auth : string;
}.

Record Subscription : Type := {
  endpoint : string;
  keys : SubscriptionKeys;
}.

Record StoredSubscription : Type := {
  subscription : Subscription;
  createdAt : string;
  name : option string;
}.

Record VapidKeys : Type := {
  publicKey : string;
  privateKey : string;
  subject : string;
}.

#[global] Instance SubscriptionKeys_eq_dec : EqDecision SubscriptionKeys.
Proof. solve_decision. Defined.
#[global] Instance Subscription_eq_dec : EqDecision Subscription.
Proof. solve_decision. Defined.
#[global] Instance StoredSubscription_eq_dec : EqDecision StoredSubscription.
Proof. solve_decision. Defined.
#[global] Instance VapidKeys_eq_dec : EqDecision VapidKeys.
Proof. solve_decision. Defined.

(** ** The [subscriptions] object: a plain JavaScript object used as a map

    [private subscriptions: Record<string, StoredSubscription> = {}] is an
    ordinary object: it has own properties and a prototype. The prototype
    is [Object.prototype] for [{}] and for whatever [JSON.parse] returns;
    the assignment [o["__proto__"] = v] runs the inherited setter and
    replaces the prototype by [v] instead of creating a property. *)

Inductive Prototype : Type :=
| ObjectPrototype
| RecordPrototype (r : StoredSubscription).

Record JsObject : Type := {
  own : gmap string StoredSubscription;
  proto : Prototype;
}.

(** What [o[key]] can evaluate to. *)
Inductive JsValue : Type :=
| VStored (r : StoredSubscription)
| VSubscription (s : Subscription)
| VString (s : string)
| VBuiltin
| VUndefined.

(** The properties every object inherits from [Object.prototype]
    (ECMA-262, 20.1.3 and B.2.2). *)
Definition Object_prototype_names : list string :=
  [ "constructor"; "hasOwnProperty"; "isPrototypeOf"; "propertyIsEnumerable";
    "toLocaleString"; "toString"; "valueOf"; "__proto__";
    "__defineGetter__"; "__defineSetter__"; "__lookupGetter__"; "__lookupSetter__" ].

Definition inherited (key : string) : bool :=
  bool_decide (key ∈ Object_prototype_names).

Definition empty_object : JsObject := {| own := ∅; proto := ObjectPrototype |}.

(** [o[key]]: own property first, then the prototype chain. The getter of
    [__proto__] answers with the prototype itself. *)
Definition get (o : JsObject) (key : string) : JsValue :=
  match own o !! key with
  | Some r => VStored r
  | None =>
      match proto o with
      | ObjectPrototype => if inherited key then VBuiltin else VUndefined
      | RecordPrototype r =>
          if String.eqb key "subscription" then VSubscription (subscription r)
          else if String.eqb key "createdAt" then VString (createdAt r)
          else if String.eqb key "name" then
            match name r with
            | Some n => VString n
            | None => VUndefined
            end
          else if String.eqb key "__proto__" then VStored r
          else if inherited key then VBuiltin
          else VUndefined
      end
  end.

(** ToBoolean. *)
Definition truthy (v : JsValue) : bool :=
  match v with
  | VStored _ | VSubscription _ | VBuiltin => true
  | VString s => negb (String.eqb s EmptyString)
  | VUndefined => false
  end.

(** [v.subscription], [undefined] being [None]. *)
Definition subscription_of (v : JsValue) : option Subscription :=
  match v with
  | VStored r => Some (subscription r)
  | _ => None
  end.

(** [o[key] = r]. *)
Definition set (o : JsObject) (key : string) (r : StoredSubscription) : JsObject :=
  if String.eqb key "__proto__" then
    match own o !! key with
    | Some _ => {| own := <[key := r]> (own o); proto := proto o |}
    | None => {| own := own o; proto := RecordPrototype r |}
    end
  else {| own := <[key := r]> (own o); proto := proto o |}.

(** [delete o[key]]. *)
Definition remove (o : JsObject) (key : string) : JsObject :=
  {| own := delete key (own o); proto := proto o |}.

(** [{ ...o }]: a new object holding the own properties of [o]. *)
Definition spread (o : JsObject) : JsObject :=
  {| own := own o; proto := ObjectPrototype |}.

(** [Object.keys(o)]. *)
Definition Object_keys (o : JsObject) : list string := (map_to_list (own o)).*1.

(** ** Encoding to and from JSON values *)

Import JSON.

Definition Subscription_to_json (s : Subscription) : json :=
  JObj [ ("endpoint", JStr (endpoint s));
         ("keys", JObj [ ("p256dh", JStr (p256dh (keys s)));
                         ("auth", JStr (auth (keys s))) ]) ].

(** Property order of the literal in [subscribe]; [name] is left out when
    it is [undefined]. *)
Definition StoredSubscription_to_json (r : StoredSubscription) : json :=
  JObj ([ ("subscription", Subscription_to_json (subscription r));
          ("createdAt", JStr (createdAt r)) ]
        ++ match name r with
           | Some n => [ ("name", JStr n) ]
           | None => []
           end).

Definition subscriptions_to_json (o : JsObject) : json :=
  JObj (prod_map id StoredSubscription_to_json <$> map_to_list (own o)).

Definition VapidKeys_to_json (k : VapidKeys) : json :=
  JObj [ ("publicKey", JStr (publicKey k));
         ("privateKey", JStr (privateKey k));
         ("subject", JStr (subject k)) ].

(** The object [JSON.parse] builds from a member list: a repeated name
    keeps its last value. *)
Definition members_map (ms : list (string * json)) : gmap string json :=
  foldl (λ m kv, <[kv.1 := kv.2]> m) ∅ ms.

Definition has_shape (names : list string) (m : gmap string json) : bool :=
  bool_decide (dom m = list_to_set names).

Definition as_string (j : json) : option string :=
  match j with
  | JStr s => Some s
  | _ => None
  end.

Definition field (m : gmap string json) (key : string) : option string :=
  m !! key ≫= as_string.

(** The views of a parsed value at the TypeScript types; [None] when the
    value does not have the declared shape. *)
Definition as_SubscriptionKeys (j : json) : option SubscriptionKeys :=
  match j with
  | JObj ms =>
      let m := members_map ms in
      if has_shape ["p256dh"; "auth"] m then
        p ← field m "p256dh"; a ← field m "auth";
        Some {| p256dh := p; auth := a |}
      else None
  | _ => None
  end.

Definition as_Subscription (j : json) : option Subscription :=
  match j with
  | JObj ms =>
      let m := members_map ms in
      if has_shape ["endpoint"; "keys"] m then
        e ← field m "endpoint"; k ← m !! "keys" ≫= as_SubscriptionKeys;
        Some {| endpoint := e; keys := k |}
      else None
  | _ => None
  end.

Definition as_StoredSubscription (j : json) : option StoredSubscription :=
  match j with
  | JObj ms =>
      let m := members_map ms in
      if has_shape ["subscription"; "createdAt"] m then
        s ← m !! "subscription" ≫= as_Subscription; c ← field m "createdAt";
        Some {| subscription := s; createdAt := c; name := None |}
      else if has_shape ["subscription"; "createdAt"; "name"] m then
        s ← m !! "subscription" ≫= as_Subscription; c ← field m "createdAt";
        n ← field m "name";
        Some {| subscription := s; createdAt := c; name := Some n |}
      else None
  | _ => None
  end.

Definition as_subscriptions (j : json) : option JsObject :=
  match j with
  | JObj ms =>
      let m := members_map ms in
      if bool_decide (map_Forall (λ _ v, is_Some (as_StoredSubscription v)) m)
      then Some {| own := omap as_StoredSubscription m; proto := ObjectPrototype |}
      else None
  | _ => None
  end.

Definition as_VapidKeys (j : json) : option VapidKeys :=
  match j with
  | JObj ms =>
      let m := members_map ms in
      if has_shape ["publicKey"; "privateKey"; "subject"] m then
        pk ← field m "publicKey"; sk ← field m "privateKey"; sj ← field m "subject";
        Some {| publicKey := pk; privateKey := sk; subject := sj |}
      else None
  | _ => None
  end.

(** ** Collaborators: the push library, the clock and the scheduler

    [webPush.sendNotification] resolves or rejects; a rejection is an
    error object that may carry a numeric [statusCode]. Its first argument
    is the value of [stored.subscription], which is [undefined] ([None])
    when [stored] is not a record. *)

Inductive SendResult : Type :=
| Delivered
| Rejected (statusCode : option Z).

Class Collaborators : Type := {
  world : Type;
  (** [webPush.generateVAPIDKeys()]: a public and a private key *)
  generateVAPIDKeys : world → (string * string) * world;
  (** [webPush.sendNotification(subscription, payload)] *)
  sendNotification : option Subscription → string → world → SendResult * world;
  (** [new Date().toISOString()] *)
  toISOString : world → string * world;
  (** the order in which the promises of one [Promise.all] settle *)
  settle_order : world → ∀ A : Type, list A → list A;
  settle_order_perm : ∀ w A (l : list A), settle_order w A l ≡ₚ l;
}.

(** Observable effects, most recent first. *)
Inductive Event : Type :=
| WriteFile (path content : string) (mode : option N)
| SendNotification (target : option Subscription) (payload : string)
| GenerateVAPIDKeys.

Definition is_write (e : Event) : bool :=
  match e with
  | WriteFile _ _ _ => true
  | _ => false
  end.

Definition is_send (e : Event) : bool :=
  match e with
  | SendNotification _ _ => true
  | _ => false
  end.

Section Methods.
Context `{Collaborators}.

(** The fields of a [Vapush] instance; [this_keys] is for what
    [loadOrCreateKeys] returned, which is whatever [JSON.parse] read. *)
Record Vapush : Type := {
  this_dataDir : string;
  this_subject : string;
  this_keys : option json;
  this_subscriptions : JsObject;
}.

(** An instance in its environment: the files of the data directory,
    the collaborators' state and the effects so far. *)
Record System : Type := {
  this : Vapush;
  files : gmap string string;
  outside : world;
  trace : list Event;
}.

Definition M (A : Type) : Type := System → A * System.

Definition ret {A : Type} (a : A) : M A := λ s, (a, s).

Definition bind {A B : Type} (m : M A) (k : A → M B) : M B :=
  λ s, let '(a, s') := m s in k a s'.

Notation "'do' x <- m ; k" := (bind m (λ x, k))
  (at level 10, x name, m at level 100, k at level 200).
Notation "m ;; k" := (bind m (λ _, k))
  (at level 100, k at level 200, right associativity).

Definition subscriptions : M JsObject := λ s, (this_subscriptions (this s), s).

Definition set_subscriptions (o : JsObject) : M unit := λ s,
  (tt, {| this := {| this_dataDir := this_dataDir (this s);
                     this_subject := this_subject (this s);
                     this_keys := this_keys (this s);
                     this_subscriptions := o |};
          files := files s; outside := outside s; trace := trace s |}).

Definition emit (e : Event) : M unit := λ s,
  (tt, {| this := this s; files := files s; outside := outside s;
          trace := e :: trace s |}).

Definition ask {A : Type} (call : world → A * world) : M A := λ s,
  let '(a, w) := call (outside s) in
  (a, {| this := this s; files := files s; outside := w; trace := trace s |}).

(** [path.join(dir, file)] for a plain file name. *)
Definition path_join (dir file : string) : string := dir +:+ "/" +:+ file.

(** [fs.readFile(path, "utf-8")]; [None] when the read throws. *)
Definition readFile (path : string) : M (option string) := λ s,
  (files s !! path, s).

(** [fs.writeFile(path, content, { mode })] into the data directory that
    [init] has created. *)
Definition writeFile (path content : string) (mode : option N) : M unit := λ s,
  (tt, {| this := this s; files := <[path := content]> (files s);
          outside := outside s; trace := WriteFile path content mode :: trace s |}).

Definition subFile : M string := λ s,
  (path_join (this_dataDir (this s)) "subscriptions.json", s).

Definition keyFile : M string := λ s,
  (path_join (this_dataDir (this s)) "vapid.json", s).

(** [private async saveSubscriptions()] *)
Definition saveSubscriptions : M unit :=
  do file <- subFile;
  do o <- subscriptions;
  writeFile file (stringify_pretty (subscriptions_to_json o)) None.

(** What [loadSubscriptions] leaves in [this.subscriptions]: a value of
    the declared type, or parsed JSON that the unchecked assignment let
    through although it is no [Record<string, StoredSubscription>]. *)
Inductive Loaded : Type :=
| LoadedStore (s : System)
| LoadedUntyped (j : json).

(** [private async loadSubscriptions()] *)
Definition loadSubscriptions (s : System) : Loaded :=
  let '(file, s) := subFile s in
  match readFile file s with
  | (Some content, s) =>
      match JSON.parse content with
      | Some j =>
          match as_subscriptions j with
          | Some o => LoadedStore (set_subscriptions o s).2
          | None => LoadedUntyped j
          end
      | None => LoadedStore (set_subscriptions empty_object s).2
      end
  | (None, s) => LoadedStore (set_subscriptions empty_object s).2
  end.

(** [private async loadOrCreateKeys()]; the result is the parsed file, or
    the fresh [VapidKeys] object. *)
Definition loadOrCreateKeys : M json :=
  do file <- keyFile;
  do content <- readFile file;
  match content ≫= JSON.parse with
  | Some j => ret j
  | None =>
      do pair <- ask generateVAPIDKeys;
      emit GenerateVAPIDKeys;;
      do subject <- (λ s, (this_subject (this s), s));
      let keys := {| publicKey := pair.1; privateKey := pair.2; subject := subject |} in
      writeFile file (stringify_pretty (VapidKeys_to_json keys)) (Some 384%N);;
      ret (VapidKeys_to_json keys)
  end.

(** [async subscribe(id, subscription, name?)] *)
Definition subscribe (id : string) (subscription : Subscription)
    (name : option string) : M unit :=
  do o <- subscriptions;
  do now <- ask toISOString;
  set_subscriptions
    (set o id {| subscription := subscription; createdAt := now; name := name |});;
  saveSubscriptions.

(** [async unsubscribe(id)] *)
Definition unsubscribe (id : string) : M bool :=
  do o <- subscriptions;
  if negb (truthy (get o id)) then ret false
  else
    set_subscriptions (remove o id);;
    saveSubscriptions;;
    ret true.

(** [getSubscriptions()] *)
Definition getSubscriptions : M JsObject :=
  do o <- subscriptions;
  ret (spread o).

(** [JSON.stringify({ title, body, url })] *)
Definition payload_of (title body : string) (url : option string) : string :=
  stringify
    (JObj ([ ("title", JStr title); ("body", JStr body) ]
           ++ match url with
              | Some u => [ ("url", JStr u) ]
              | None => []
              end)).

(** [statusCode === 404 || statusCode === 410] *)
Definition gone (statusCode : option Z) : bool :=
  match statusCode with
  | Some c => (c =? 404)%Z || (c =? 410)%Z
  | None => false
  end.

Definition send (target : option Subscription) (payload : string) : M SendResult :=
  emit (SendNotification target payload);;
  ask (sendNotification target payload).

(** One callback of [ids.map(async (id) => ...)] up to its [await]:
    the call of [sendNotification]. Reading [.subscription] of
    [undefined] would throw a [TypeError] into the [catch], an error
    without [statusCode]. *)
Definition attempt (payload id : string) : M SendResult :=
  do o <- subscriptions;
  match get o id with
  | VUndefined => ret (Rejected None)
  | stored => send (subscription_of stored) payload
  end.

(** The calls are issued in the order of [ids]. *)
Fixpoint send_each (payload : string) (ids : list string)
    : M (list (string * SendResult)) :=
  match ids with
  | [] => ret []
  | id :: ids' =>
      do r <- attempt payload id;
      do rs <- send_each payload ids';
      ret ((id, r) :: rs)
  end.

Definition failed_permanently (a : string * SendResult) : bool :=
  match a.2 with
  | Rejected statusCode => gone statusCode
  | Delivered => false
  end.

Definition delivered (a : string * SendResult) : bool :=
  match a.2 with
  | Delivered => true
  | Rejected _ => false
  end.

Record Counts : Type := { success : nat; failed : nat }.

(** The body of [push] once [ids] has been read. After [Promise.all] the
    continuations have run in settlement order: each bumped one counter
    and the 404/410 ones appended their id to [toRemove]. *)
Definition push_ids (payload : string) (ids : list string) : M Counts :=
  do issued <- send_each payload ids;
  do settled <- (λ s, (settle_order (outside s) _ issued, s));
  let toRemove := (filter (λ a, failed_permanently a = true) settled).*1 in
  do o <- subscriptions;
  set_subscriptions (foldl remove o toRemove);;
  (if Nat.ltb 0 (length toRemove) then saveSubscriptions else ret tt);;
  ret {| success := length (filter (λ a, delivered a = true) settled);
         failed := length (filter (λ a, delivered a = false) settled) |}.

(** [async push(title, body, url?)] *)
Definition push (title body : string) (url : option string) : M Counts :=
  do o <- subscriptions;
  push_ids (payload_of title body url) (Object_keys o).

(** [async pushTo(id, title, body, url?)] *)
Definition pushTo (id title body : string) (url : option string) : M bool :=
  do o <- subscriptions;
  let stored := get o id in
  if negb (truthy stored) then ret false
  else
    do r <- send (subscription_of stored) (payload_of title body url);
    match r with
    | Delivered => ret true
    | Rejected statusCode =>
        (if gone statusCode then
           do o' <- subscriptions;
           set_subscriptions (remove o' id);;
           saveSubscriptions
         else ret tt);;
        ret false
    end.

End Methods.

(** ** The request handler ([src/server.ts]) *)

Record Request : Type := {
  method : string;
  pathname : string;
  body : string;
}.

Record Response : Type := {
  status : Z;
  content : string;
}.

(** [const checkSecret = (provided) => provided === secret]; [provided]
    is [undefined] ([None]), a value read from the parsed body, or a
    string cut out of the path. *)
Definition checkSecret (secret : string) (provided : option json) : bool :=
  match provided with
  | Some (JStr s) => String.eqb s secret
  | _ => false
  end.

Definition json_response (code : Z) (j : json) : Response :=
  {| status := code; content := stringify j |}.

Definition unauthorized : Response :=
  json_response 401 (JObj [ ("error", JStr "Invalid secret") ]).

Definition badRequest (msg : string) : Response :=
  json_response 400 (JObj [ ("error", JStr msg) ]).

Definition internal_error : Response :=
  json_response 500 (JObj [ ("error", JStr "Internal server error") ]).

(** [parsed.key] for a parsed body that is not [null]. *)
Definition property (parsed : json) (key : string) : option json :=
  match parsed with
  | JObj ms => members_map ms !! key
  | _ => None
  end.

Fixpoint has_line_terminator (s : string) : bool :=
  match s with
  | String c r =>
      Ascii.eqb c "010" || Ascii.eqb c "013"
      || match strip_prefix (String "226" (String "128" EmptyString)) s with
         | Some (String d _) => Ascii.eqb d "168" || Ascii.eqb d "169"
         | _ => false
         end
      || has_line_terminator r
  | EmptyString => false
  end.

(** [pathname.match(/^prefix(.+)$/)], the captured group. *)
Definition capture (prefix pathname : string) : option string :=
  match strip_prefix prefix pathname with
  | Some rest =>
      if String.eqb rest EmptyString || has_line_terminator rest then None
      else Some rest
  | None => None
  end.

(** The four operations behind the secret. *)
Inductive Route : Type :=
| RouteSubscribe
| RouteUnsubscribe
| RouteSubscriptions (segment : string)
| RoutePush (segment : string).

Inductive Routed : Type :=
| Preflight
| PublicKey
| Protected (r : Route)
| Static.

(** The chain of [if]s of the handler, in source order. *)
Definition route (req : Request) : Routed :=
  if String.eqb (method req) "OPTIONS" then Preflight
  else if String.eqb (pathname req) "/api/public-key" then PublicKey
  else if String.eqb (pathname req) "/api/subscribe" && String.eqb (method req) "POST"
  then Protected RouteSubscribe
  else if String.eqb (pathname req) "/api/unsubscribe" && String.eqb (method req) "POST"
  then Protected RouteUnsubscribe
  else
    match capture "/api/subscriptions/" (pathname req), String.eqb (method req) "GET" with
    | Some segment, true => Protected (RouteSubscriptions segment)
    | _, _ =>
        match capture "/api/push/" (pathname req), String.eqb (method req) "POST" with
        | Some segment, true => Protected (RoutePush segment)
        | _, _ => Static
        end
    end.

Section Server.
Context `{Collaborators}.

Inductive Handled : Type :=
| Responded (r : Response) (s : System)
(** the public-key route and the static file server, not modelled *)
| Elsewhere
(** an authorised call whose arguments do not have the declared
    TypeScript types *)
| BeyondTypes.

(** [name]: absent, or a string. *)
Definition as_optional_string (j : option json) : option (option string) :=
  match j with
  | None => Some None
  | Some (JStr s) => Some (Some s)
  | Some _ => None
  end.

(** What the handler does once [checkSecret] has let the request
    through; [parsed] is the parsed body (not used by the list route). *)
Definition perform (r : Route) (parsed : json) (s : System) : Handled :=
  match r with
  | RouteSubscribe =>
      match property parsed "id" ≫= as_string,
            property parsed "subscription" ≫= as_Subscription,
            as_optional_string (property parsed "name") with
      | Some id, Some sub, Some name =>
          Responded (json_response 200 (JObj [ ("ok", JBool true) ]))
            (subscribe id sub name s).2
      | _, _, _ => BeyondTypes
      end
  | RouteUnsubscribe =>
      match property parsed "id" ≫= as_string with
      | Some id =>
          let '(removed, s') := unsubscribe id s in
          Responded
            (json_response 200 (JObj [ ("ok", JBool true); ("removed", JBool removed) ]))
            s'
      | None => BeyondTypes
      end
  | RouteSubscriptions _ =>
      let '(subs, s') := getSubscriptions s in
      Responded (json_response 200 (subscriptions_to_json subs)) s'
  | RoutePush _ =>
      match property parsed "title" ≫= as_string,
            property parsed "body" ≫= as_string,
            as_optional_string (property parsed "url") with
      | Some title, Some msgBody, Some msgUrl =>
          let '(result, s') := push title msgBody msgUrl s in
          Responded
            (json_response 200
               (JObj [ ("success", JNum (pretty (success result)));
                       ("failed", JNum (pretty (failed result))) ]))
            s'
      | _, _, _ => BeyondTypes
      end
  end.

(** What a request is answered once its secret has been accepted. *)
Definition admitted (r : Route) (req : Request) (s : System) : Handled :=
  match r with
  | RouteSubscriptions _ => perform r JNull s
  | _ =>
      match JSON.parse (body req) with
      | None => Responded (badRequest "Invalid JSON") s
      | Some JNull => Responded internal_error s
      | Some parsed => perform r parsed s
      end
  end.

(** The body of a protected route. The two body routes parse the body, then
    destructure it (a [TypeError] on [null], answered 500 by the outer
    [catch]), then check the secret; the two path routes check the
    secret of the path first, and the push route reads its body after
    that. *)
Definition protected (secret : string) (r : Route) (req : Request) (s : System) : Handled :=
  match r with
  | RouteSubscribe | RouteUnsubscribe =>
      match JSON.parse (body req) with
      | None => Responded (badRequest "Invalid JSON") s
      | Some JNull => Responded internal_error s
      | Some parsed =>
          if negb (checkSecret secret (property parsed "secret"))
          then Responded unauthorized s
          else perform r parsed s
      end
  | RouteSubscriptions segment | RoutePush segment =>
      if negb (checkSecret secret (Some (JStr segment))) then Responded unauthorized s
      else admitted r req s
  end.

(** The request listener of [createServer]. *)
Definition handle (secret : string) (req : Request) (s : System) : Handled :=
  match route req with
  | Preflight => Responded {| status := 204; content := EmptyString |} s
  | PublicKey | Static => Elsewhere
  | Protected r => protected secret r req s
  end.

(** The value a request offers as the secret, when it reaches one of the
    four protected operations and offers one at all ([Some None] is an
    offered [undefined]). *)
Definition supplied (req : Request) : option (option json) :=
  match route req with
  | Protected (RouteSubscriptions segment) | Protected (RoutePush segment) =>
      Some (Some (JStr segment))
  | Protected RouteSubscribe | Protected RouteUnsubscribe =>
      match JSON.parse (body req) with
      | None | Some JNull => None
      | Some parsed => Some (property parsed "secret")
      end
  | _ => None
  end.

End Server.

(** ** Sharing between the store and what [getSubscriptions] returns

    No method of the class writes into a record once it is stored, so the
    model above treats records as values. It matters that they are objects
    only when a caller writes through the object [getSubscriptions] hands
    out; for that, objects live in a heap and properties hold addresses. *)

Module Aliasing.

Definition address : Type := nat.

Inductive Object : Type :=
| Table (props : gmap string address)
| Stored (r : StoredSubscription).

Record Store : Type := {
  heap : gmap nat Object;
  this_subscriptions : address;
}.

Definition props_at (h : gmap nat Object) (a : address) : gmap string address :=
  match h !! a with
  | Some (Table props) => props
  | _ => ∅
  end.

Definition record_at (h : gmap nat Object) (a : address) : option StoredSubscription :=
  match h !! a with
  | Some (Stored r) => Some r
  | _ => None
  end.

(** The map an object denotes: its keys with the records they point to. *)
Definition contents (h : gmap nat Object) (a : address)
  : gmap string StoredSubscription :=
  omap (record_at h) (props_at h a).

(** [this.subscriptions] points to an object. *)
Definition allocated (st : Store) : Prop :=
  is_Some (heap st !! this_subscriptions st).

(** [return { ...this.subscriptions }]: a new object, the same
    property values. *)
Definition getSubscriptions (st : Store) : address * Store :=
  let a := fresh (dom (heap st)) in
  (a, {| heap := <[a := Table (props_at (heap st) (this_subscriptions st))]> (heap st);
         this_subscriptions := this_subscriptions st |}).

(** What a caller can do to the object it was given. *)
Inductive Mutation : Type :=
(** [returned[key] = v] *)
| Assign (key : string) (v : address)
(** [delete returned[key]] *)
| Delete (key : string)
(** [returned[key].name = n] *)
| AssignName (key : string) (n : option string)
(** [returned[key].createdAt = c] *)
| AssignCreatedAt (key : string) (c : string)
(** [returned[key].subscription = s] *)
| AssignSubscription (key : string) (s : Subscription).

Definition top_level (m : Mutation) : bool :=
  match m with
  | Assign _ _ | Delete _ => true
  | _ => false
  end.

Definition update_record (h : gmap nat Object) (returned : address) (key : string)
    (f : StoredSubscription → StoredSubscription) : gmap nat Object :=
  match props_at h returned !! key with
  | Some r =>
      match record_at h r with
      | Some rec => <[r := Stored (f rec)]> h
      | None => h
      end
  | None => h
  end.

Definition mutate (returned : address) (m : Mutation) (h : gmap nat Object)
  : gmap nat Object :=
  match m with
  | Assign key v => <[returned := Table (<[key := v]> (props_at h returned))]> h
  | Delete key => <[returned := Table (delete key (props_at h returned))]> h
  | AssignName key n =>
      update_record h returned key
        (λ r, {| subscription := subscription r; createdAt := createdAt r; name := n |})
  | AssignCreatedAt key c =>
      update_record h returned key
        (λ r, {| subscription := subscription r; createdAt := c; name := name r |})
  | AssignSubscription key s =>
      update_record h returned key
        (λ r, {| subscription := s; createdAt := createdAt r; name := name r |})
  end.

End Aliasing.

(** ** Observations used in the statements *)

Section Observations.
Context `{Collaborators}.

(** A system whose instance holds the subscriptions [o]. *)
Definition holding (o : JsObject) (dir subj : string) (ks : option json)
    (fs : gmap string string) (w : world) (tr : list Event) : System :=
  {| this := {| this_dataDir := dir; this_subject := subj; this_keys := ks;
                this_subscriptions := o |};
     files := fs; outside := w; trace := tr |}.

(** The subscription map of a system: the own properties. *)
Definition store (s : System) : gmap string StoredSubscription :=
  own (this_subscriptions (this s)).

(** The effects between an earlier state [s] and a later one [s']. *)
Definition since (s s' : System) : list Event :=
  take (length (trace s') - length (trace s)) (trace s').

Definition writes (events : list Event) : nat := length (filter (λ e, is_write e = true) events).
Definition sends (events : list Event) : nat := length (filter (λ e, is_send e = true) events).

(** What the push library answers when it is asked, one subscriber after
    the other, to deliver [payload] to the descriptor of each entry. *)
Fixpoint library_answers (payload : string)
    (entries : list (string * StoredSubscription)) (w : world)
    : list (string * SendResult) :=
  match entries with
  | [] => []
  | (id, r) :: rest =>
      let '(answer, w') := sendNotification (Some (subscription r)) payload w in
      (id, answer) :: library_answers payload rest w'
  end.

(** A new process on the same data directory:
    [new Vapush({ dataDir, subject })]. *)
Definition restart (subj : string) (s : System) : System :=
  {| this := {| this_dataDir := this_dataDir (this s);
                this_subject := subj;
                this_keys := None;
                this_subscriptions := empty_object |};
     files := files s; outside := outside s; trace := trace s |}.

End Observations.

(** ** A scripted environment, for concrete runs

    The push service answers by endpoint: gone for one, busy for another,
    delivered otherwise; a call without a subscription is rejected without
    a status, as the library does. Promises settle in reverse order. *)

Definition scripted_send (target : option Subscription) : SendResult :=
  match target with
  | Some sub =>
      if String.eqb (endpoint sub) "https://push.example/gone" then Rejected (Some 410%Z)
      else if String.eqb (endpoint sub) "https://push.example/busy" then Rejected (Some 429%Z)
      else Delivered
  | None => Rejected None
  end.

Definition scripted : Collaborators :=
  {| world := nat;
     generateVAPIDKeys := λ n, (("BPublicKey", "PrivateKey"), S n);
     sendNotification := λ target _ n, (scripted_send target, S n);
     toISOString := λ n, ("2024-05-01T12:00:00.000Z", S n);
     settle_order := λ _ A l, reverse l;
     settle_order_perm := λ _ A l, reverse_Permutation l |}.

Definition descriptor (url : string) : Subscription :=
  {| endpoint := url; keys := {| p256dh := "BNcRdreALRFXTkOOUHK1EtK2wtaz5Ry4YfYCA"; auth := "tBHItJI5svbpez7KI4CCXg" |} |}.

Definition record (url : string) (name : option string) : StoredSubscription :=
  {| subscription := descriptor url; createdAt := "2024-04-30T08:15:00.000Z"; name := name |}.

(** Three subscribers: one reachable, one gone, one rate-limited. *)
Definition three_subscribers : JsObject :=
  {| own := <["phone" := record "https://push.example/ok" (Some "Phone")]>
              (<["tablet" := record "https://push.example/gone" None]>
                 (<["laptop" := record "https://push.example/busy" (Some "Laptop")]> ∅));
     proto := ObjectPrototype |}.

Definition scenario (o : JsObject) (fs : gmap string string) : @System scripted :=
  @holding scripted o "/srv/.vapush" "mailto:vapush@localhost" None fs 0 [].

Definition new_phone : Subscription := descriptor "https://push.example/new".

(** A subscription file cut off in the middle of a write. *)
Definition torn_files : gmap string string :=
  {[ "/srv/.vapush/subscriptions.json" :=
       "{ " +:+ quote "phone" +:+ ": { " +:+ String dquote "subscr" ]}.

Definition wrong_secret_push : Request :=
  {| method := "POST"; pathname := "/api/push/letmein";
     body := stringify (JObj [ ("title", JStr "Alert"); ("body", JStr "Server rebooted") ]) |}.

Module Aliasing_scenario.
Import Aliasing.

(** The store object at address 0 with one entry, its record at 1. *)
Definition one_entry : Store :=
  {| heap := <[0 := Table {[ "phone" := 1 ]}]>
               {[ 1 := Stored (record "https://push.example/ok" (Some "Phone")) ]};
     this_subscriptions := 0 |}.
End Aliasing_scenario.

(** ** Durability of the subscription map *)

Section Durability.
Context `{Collaborators}.

(** A new process on the data directory of [s] loads the map that [s]
    holds in memory. *)
Definition durable (s : System) : Prop :=
  ∃ s', loadSubscriptions (restart (this_subject (this s)) s) = LoadedStore s'
        ∧ store s' = store s.

(** What [loadSubscriptions] would read from the files [fs] in [dir];
    [None] when the file holds JSON of another shape. *)
Definition on_disk (dir : string) (fs : gmap string string) : option JsObject :=
  match fs !! path_join dir "subscriptions.json" with
  | Some content =>
      match JSON.parse content with
      | Some j => as_subscriptions j
      | None => Some empty_object
      end
  | None => Some empty_object
  end.

Definition persisted (s : System) : option JsObject :=
  on_disk (this_dataDir (this s)) (files s).

(** From [s] to [s'] the instance keeps its directory, subject and keys,
    and no file but [subscriptions.json] has changed. *)
Definition only_subscriptions_touched (s s' : System) : Prop :=
  this_dataDir (this s') = this_dataDir (this s)
  ∧ this_subject (this s') = this_subject (this s)
  ∧ this_keys (this s') = this_keys (this s)
  ∧ ∀ p, p ≠ path_join (this_dataDir (this s)) "subscriptions.json" →
         files s' !! p = files s !! p.

(** The [SendNotification] event of the attempt for [id]. *)
Definition addressed (o : JsObject) (payload id : string) : Event :=
  SendNotification (subscription_of (get o id)) payload.

(** The state once [pushTo] has called the push library. *)
Definition after_send (s : System) (target : option Subscription) (payload : string)
    (w : world) : System :=
  {| this := this s; files := files s; outside := w;
     trace := SendNotification target payload :: trace s |}.

End Durability.

(** ** [String.prototype.trim] and the base64url alphabet

    Strings are UTF-8 text. The white space and line terminators that
    [trim] removes are U+0009 to U+000D, U+0020, U+00A0, U+1680, U+2000 to
    U+200A, U+2028, U+2029, U+202F, U+205F, U+3000 and U+FEFF. *)

Definition is_ascii_space (c : ascii) : bool :=
  ((9 <=? code c) && (code c <=? 13) || (code c =? 32))%N.

(** U+00A0 *)
Definition is_space2 (c d : ascii) : bool :=
  ((code c =? 194) && (code d =? 160))%N.

(** U+1680, U+2000 to U+200A, U+2028, U+2029, U+202F, U+205F, U+3000,
    U+FEFF *)
Definition is_space3 (c d e : ascii) : bool :=
  ((code c =? 225) && (code d =? 154) && (code e =? 128)
   || (code c =? 226) && (code d =? 128)
      && ((128 <=? code e) && (code e <=? 138)
          || (code e =? 168) || (code e =? 169) || (code e =? 175))
   || (code c =? 226) && (code d =? 129) && (code e =? 159)
   || (code c =? 227) && (code d =? 128) && (code e =? 128)
   || (code c =? 239) && (code d =? 187) && (code e =? 191))%N.

(** One white-space character at the head of [s]: what follows it. *)
Definition white_space (s : string) : option string :=
  match s with
  | String c r =>
      if is_ascii_space c then Some r
      else
        match r with
        | String d r' =>
            if is_space2 c d then Some r'
            else
              match r' with
              | String e r'' => if is_space3 c d e then Some r'' else None
              | EmptyString => None
              end
        | EmptyString => None
        end
  | EmptyString => None
  end.

Fixpoint trimStart_at (fuel : nat) (s : string) : string :=
  match fuel with
  | O => s
  | S fuel =>
      match white_space s with
      | Some r => trimStart_at fuel r
      | None => s
      end
  end.

Definition trimStart (s : string) : string := trimStart_at (String.length s) s.

(** [s] is cut where nothing but white space follows. *)
Fixpoint trimEnd (s : string) : string :=
  match s with
  | String c r =>
      if String.eqb (trimStart s) EmptyString then EmptyString else String c (trimEnd r)
  | EmptyString => EmptyString
  end.

Definition trim (s : string) : string := trimEnd (trimStart s).

Definition is_base64url_char (c : ascii) : bool :=
  ((65 <=? code c) && (code c <=? 90)
   || (97 <=? code c) && (code c <=? 122)
   || (48 <=? code c) && (code c <=? 57)
   || (code c =? 45) || (code c =? 95))%N.

Fixpoint all_base64url (s : string) : bool :=
  match s with
  | String c r => is_base64url_char c && all_base64url r
  | EmptyString => true
  end.

(** Sixteen bytes in base64url: 22 characters of the alphabet, no padding. *)
Definition base64url16 (s : string) : bool :=
  Nat.eqb (String.length s) 22 && all_base64url s.

(** ** Start-up: the constructor, [init] and [getPublicKey] *)

(** What start-up needs from outside beyond [Collaborators]. *)
Class Platform `{Collaborators} : Type := {
  (** whether [fs.mkdir(dir, { recursive: true })] is fulfilled: the
      directory is there or can be made. It is rejected for the empty
      path, below a file, or where permissions forbid it. The directories
      of the disk and their permissions stay as they are while the
      program runs, so the answer depends on the path alone. *)
  mkdir : string → bool;
  (** whether [webPush.setVapidDetails(subject, publicKey, privateKey)]
      accepts its arguments; it throws when it does not *)
  setVapidDetails : option json → option json → option json → bool;
  (** [crypto.randomBytes(16).toString("base64url")] *)
  randomBytes16 : world → string * world;
  randomBytes16_base64url : ∀ w, base64url16 (randomBytes16 w).1 = true;
}.

Section Startup.
Context `{Platform}.

(** [new Vapush(options)]; [cwd_vapush] is
    [path.join(process.cwd(), ".vapush")]. *)
Definition construct (cwd_vapush : string) (dataDir subject : option string) : Vapush :=
  {| this_dataDir := default cwd_vapush dataDir;
     this_subject := default "mailto:vapush@localhost" subject;
     this_keys := None;
     this_subscriptions := empty_object |}.

(** [this.keys = k] *)
Definition set_keys (k : json) (s : System) : System :=
  {| this := {| this_dataDir := this_dataDir (this s);
                this_subject := this_subject (this s);
                this_keys := Some k;
                this_subscriptions := this_subscriptions (this s) |};
     files := files s; outside := outside s; trace := trace s |}.

(** How [init] ends: fulfilled, rejected (by [fs.mkdir], by the
    [TypeError] of reading a property of [null], or by the library's
    refusal of the details), or fulfilled with [this.subscriptions]
    holding [j], a value that is not of the declared type; [s] is then
    the system apart from that field. *)
Inductive Initialised : Type :=
| InitDone (s : System)
| InitThrew (s : System)
| InitUntyped (j : json) (s : System).

(** The system [init] leaves, up to [this.subscriptions] in the last
    case. *)
Definition left_by (i : Initialised) : System :=
  match i with
  | InitDone s | InitThrew s | InitUntyped _ s => s
  end.

(** [async init()] *)
Definition init (s : System) : Initialised :=
  if negb (mkdir (this_dataDir (this s))) then InitThrew s
  else
    let '(k, s1) := loadOrCreateKeys s in
    let s2 := set_keys k s1 in
    match k with
    | JNull => InitThrew s2
    | _ =>
        if setVapidDetails (property k "subject") (property k "publicKey")
             (property k "privateKey")
        then
          match loadSubscriptions s2 with
          | LoadedStore s3 => InitDone s3
          | LoadedUntyped j => InitUntyped j s2
          end
        else InitThrew s2
    end.

(** What [getPublicKey()] does: throw "Not initialized", or return the
    [publicKey] property of [this.keys] ([None] for [undefined]). Whether
    a number is falsy is a question about its floating-point value and
    is left open. *)
Inductive PublicKeyResult : Type :=
| NotInitialized
| KeyIs (v : option json)
| KeysAreNumber.

Definition getPublicKey (s : System) : PublicKeyResult :=
  match this_keys (this s) with
  | None | Some JNull | Some (JBool false) => NotInitialized
  | Some (JStr text) => if String.eqb text EmptyString then NotInitialized else KeyIs None
  | Some (JNum _) => KeysAreNumber
  | Some k => KeyIs (property k "publicKey")
  end.

End Startup.

(** ** [createServer] ([src/server.ts]) *)

(** The options that reach the store and the secret. [port] and [host]
    go to [server.listen] and the log lines, [publicDir] to the static
    file server. *)
Record ServerOptions : Type := {
  options_dataDir : option string;
  options_subject : option string;
  options_secret : option string;
}.

Section CreateServer.
Context `{Platform}.

(** How [createServer] ends: with a listening server that holds
    [secret], rejected because [vapush.init()] was, or rejected by the
    [fs.promises.mkdir] of the secret step. *)
Inductive Started : Type :=
| Listening (secret : string) (s : System)
| StartFailed (i : Initialised)
| StartThrew (s : System).

(** "Load or create secret": the [try] reads and trims the file; the
    [catch] takes the option or sixteen random bytes, makes the
    directory and writes them. [None] when [mkdir] rejects. *)
Definition load_or_create_secret (dataDir : string) (preset : option string)
    (s : System) : option string * System :=
  let secretFile := path_join dataDir "secret" in
  match (readFile secretFile s).1 with
  | Some text => (Some (trim text), s)
  | None =>
      let '(secret, s1) :=
        match preset with
        | Some secret => (secret, s)
        | None => ask randomBytes16 s
        end in
      if negb (mkdir dataDir) then (None, s1)
      else (Some secret, (writeFile secretFile secret (Some 384%N) s1).2)
  end.

(** [createServer(options)] on the files [fs], up to [server.listen]. *)
Definition createServer (cwd_vapush : string) (options : ServerOptions)
    (fs : gmap string string) (w : world) : Started :=
  let dataDir := default cwd_vapush (options_dataDir options) in
  let vapush := construct cwd_vapush (Some dataDir) (options_subject options) in
  match init {| this := vapush; files := fs; outside := w; trace := [] |} with
  | InitDone s =>
      match load_or_create_secret dataDir (options_secret options) s with
      | (Some secret, s') => Listening secret s'
      | (None, s') => StartThrew s'
      end
  | failed => StartFailed failed
  end.

(** [JSON.stringify({ publicKey: v })]; an [undefined] property is left
    out. *)
Definition public_key_body (v : option json) : json :=
  JObj match v with
       | Some j => [ ("publicKey", j) ]
       | None => []
       end.

(** The request listener with its public-key route. When
    [getPublicKey] throws, [writeHead(200)] has already been called;
    what the client then sees is not modelled. *)
Definition listener (secret : string) (req : Request) (s : System) : Handled :=
  match route req with
  | PublicKey =>
      match getPublicKey s with
      | KeyIs v => Responded (json_response 200 (public_key_body v)) s
      | _ => Elsewhere
      end
  | _ => handle secret req s
  end.

End CreateServer.

(** [new URL(req.url, base).pathname] (the first line of the request
    listener) for a request whose [Host] header names a host and whose
    target [url] is an absolute path of letters, digits, [-], [_] and [/]
    that does not begin with [//]: the target itself. Any other target
    goes through the URL parser, which cuts at [?] and [#],
    percent-encodes and resolves dot segments; that is not modelled
    ([None]). *)
Definition is_plain_path_char (c : ascii) : bool :=
  is_base64url_char c || Ascii.eqb c "/".

Fixpoint all_plain_path (s : string) : bool :=
  match s with
  | String c r => is_plain_path_char c && all_plain_path r
  | EmptyString => true
  end.

Definition pathname_of_url (url : string) : option string :=
  match url with
  | String c rest =>
      if Ascii.eqb c "/"
         && negb match rest with
                 | String d _ => Ascii.eqb d "/"
                 | EmptyString => false
                 end
         && all_plain_path rest
      then Some url
      else None
  | EmptyString => None
  end.

(** The request the listener sees for method, target and body. *)
Definition incoming (method url body : string) : option Request :=
  pathname ← pathname_of_url url;
  Some {| method := method; pathname := pathname; body := body |}.

(** ** The command line ([src/cli.ts]) *)

(** [a.startsWith(prefix)] *)
Definition startsWith (prefix a : string) : bool :=
  match strip_prefix prefix a with
  | Some _ => true
  | None => false
  end.

(** [a.slice(n)] *)
Fixpoint slice (n : nat) (a : string) : string :=
  match n, a with
  | S n, String _ r => slice n r
  | _, _ => a
  end.

(** [getArg(name)] over [args = process.argv.slice(2)]. *)
Definition getArg (args : list string) (name : string) : option string :=
  let prefix := "--" +:+ name +:+ "=" in
  slice (String.length prefix) <$> List.find (startsWith prefix) args.

(** The options the command line passes to [createServer]. *)
Definition cli_options (args : list string) : ServerOptions :=
  {| options_dataDir := getArg args "data-dir";
     options_subject := None;
     options_secret := None |}.

(** ** The service worker ([public/sw.js]) *)

Record Notification : Type := {
  shown_title : string;
  shown_body : string;
  shown_icon : option json;
  shown_badge : option json;
  shown_url : option json;
  requireInteraction : bool;
}.

Inductive Shown : Type :=
(** the event carried no data *)
| ShowsNothing
| Shows (n : Notification)
(** [data] is [null]: reading [data.body] throws *)
| ShowThrew
(** a title or body that is not a string would be converted by
    [showNotification] *)
| ShowUntyped.

(** [v || fallback] for a [v] that is absent, [null], [false] or a
    string. *)
Definition or_else (v : option json) (fallback : string) : option string :=
  match v with
  | None | Some JNull | Some (JBool false) => Some fallback
  | Some (JStr s) => Some (if String.eqb s EmptyString then fallback else s)
  | Some _ => None
  end.

(** The [push] listener; [data] is the text of [event.data], if any. *)
Definition on_push (data : option string) : Shown :=
  match data with
  | None => ShowsNothing
  | Some text =>
      let data :=
        match JSON.parse text with
        | Some j => j
        | None => JObj [ ("title", JStr "Notification"); ("body", JStr text) ]
        end in
      match data with
      | JNull => ShowThrew
      | _ =>
          match or_else (property data "title") "vapush",
                or_else (property data "body") EmptyString with
          | Some title, Some body =>
              Shows {| shown_title := title;
                       shown_body := body;
                       shown_icon := property data "icon";
                       shown_badge := property data "badge";
                       shown_url := property data "url";
                       requireInteraction := true |}
          | _, _ => ShowUntyped
          end
      end
  end.

Inductive Clicked : Type :=
(** the notification is closed and nothing is opened *)
| ClosedOnly
| Opened (url : string)
(** a truthy [url] that is not a string *)
| ClickUntyped.

(** The [notificationclick] listener. *)
Definition on_click (n : Notification) : Clicked :=
  match shown_url n with
  | None | Some JNull | Some (JBool false) => ClosedOnly
  | Some (JStr url) => if String.eqb url EmptyString then ClosedOnly else Opened url
  | Some _ => ClickUntyped
  end.

(** ** The scripted environment, continued *)

Definition scripted_setVapidDetails (subject publicKey privateKey : option json) : bool :=
  match subject, publicKey, privateKey with
  | Some (JStr _), Some (JStr _), Some (JStr _) => true
  | _, _, _ => false
  end.

Definition scripted_platform : @Platform scripted :=
  {| mkdir := λ dir, negb (String.eqb dir EmptyString);
     setVapidDetails := scripted_setVapidDetails;
     randomBytes16 :=
       λ n : @world scripted, ("q1w2e3r4t5y6u7i8o9p0aZ", (S n : @world scripted));
     randomBytes16_base64url := λ _, eq_refl |}.

(** An instance that has not been initialised, on an empty disk. *)
Definition fresh_start : @System scripted :=
  {| this := construct "/srv/.vapush" None None; files := ∅;
     outside := (0 : @world scripted); trace := [] |}.

(** The same after [init]. *)
Definition initialised : @System scripted :=
  match @init scripted scripted_platform fresh_start with
  | InitDone s => s
  | _ => fresh_start
  end.

(** One subscriber has been added since. *)
Definition one_subscriber : @System scripted :=
  (@subscribe scripted "phone" new_phone (Some "Phone") initialised).2.

(** A new process on that data directory, after [init]. *)
Definition reloaded : @System scripted :=
  match @init scripted scripted_platform (restart "mailto:admin@example.org" one_subscriber) with
  | InitDone s => s
  | _ => fresh_start
  end.

Definition no_options : ServerOptions :=
  {| options_dataDir := None; options_subject := None; options_secret := None |}.

Definition served_secret : string := "q1w2e3r4t5y6u7i8o9p0aZ".

(** The state of the server after its first start on an empty disk. *)
Definition first_listening : @System scripted :=
  match @createServer scripted scripted_platform "/srv/.vapush" no_options ∅
          (0 : @world scripted) with
  | Listening _ s => s
  | _ => fresh_start
  end.

(** The state of the server after a later start with another secret in
    its options. *)
Definition later_options : ServerOptions :=
  {| options_dataDir := Some "/srv/.vapush"; options_subject := None;
     options_secret := Some "hunter2" |}.

Definition later_listening : @System scripted :=
  match @createServer scripted scripted_platform "/srv/.vapush" later_options
          (files first_listening) (7 : @world scripted) with
  | Listening _ s => s
  | _ => fresh_start
  end.

Definition public_key_request : Request :=
  {| method := "GET"; pathname := "/api/public-key"; body := EmptyString |}.

Definition push_request : Request :=
  {| method := "POST"; pathname := "/api/push/" +:+ served_secret;
     body := payload_of "Alert" "Disk full" None |}.

Definition serving : @System scripted :=
  @holding scripted three_subscribers "/srv/.vapush" "mailto:vapush@localhost" None ∅ 0 [].

(** A data directory whose key file holds [null]. *)
Definition null_key_file : @System scripted :=
  {| this := construct "/srv/.vapush" None None;
     files := {[ "/srv/.vapush/vapid.json" := "null" ]};
     outside := (0 : @world scripted); trace := [] |}.

(** * Part II: facts *)

(** ** [JSON.parse] inverts [JSON.stringify] *)

Module JSON_facts.
Import JSON.

#[local] Arguments append !_ _ : simpl nomatch.

Lemma sapp_assoc (a b c : string) : (a +:+ b) +:+ c = a +:+ (b +:+ c).
Proof. induction a as [|x a IH]; simpl; [done | by rewrite IH]. Qed.

Lemma sapp_empty_r (a : string) : a +:+ EmptyString = a.
Proof. induction a as [|x a IH]; simpl; [done | by rewrite IH]. Qed.

Lemma slength_app (a b : string) :
  String.length (a +:+ b) = String.length a + String.length b.
Proof. induction a as [|x a IH]; simpl; [done | by rewrite IH]. Qed.

Lemma parse_chars_escape_char (c : ascii) (rest : string) :
  parse_chars (escape_char c +:+ rest) = on_tail (String c) (parse_chars rest).
Proof. destruct c as [[] [] [] [] [] [] [] []]; reflexivity. Qed.

Lemma parse_chars_escape (s rest : string) :
  parse_chars (escape s +:+ String dquote rest) = Some (s, rest).
Proof.
  induction s as [|c s IH]; [done|].
  cbn [escape]. rewrite sapp_assoc. by rewrite  parse_chars_escape_char, IH.
Qed.

Lemma skip_ws_spaces (n : nat) (r : string) : skip_ws (spaces n +:+ r) = skip_ws r.
Proof. induction n as [|n IH]; simpl; [done | exact IH]. Qed.

Lemma skip_ws_newline_indent (gap level : nat) (r : string) :
  skip_ws (newline_indent gap level +:+ r) = skip_ws r.
Proof. unfold newline_indent. destruct gap; simpl; [done | apply skip_ws_spaces]. Qed.

Lemma skip_ws_colon (gap : nat) (r : string) :
  skip_ws (colon gap +:+ r) = String ":" (if gap is O then r else String " " r).
Proof. by destruct gap. Qed.

Lemma opens_value_inv (c : ascii) :
  opens_value c = true →
  is_ws c = false ∧ Ascii.eqb c "]" = false ∧ Ascii.eqb c "}" = false.
Proof. destruct c as [[] [] [] [] [] [] [] []]; cbv; intuition congruence. Qed.

Lemma stringify_at_head (gap level : nat) (j : json) :
  no_num j → ∃ c r, stringify_at gap level j = String c r ∧ opens_value c = true.
Proof.
  destruct j as [|[]| | |[|x xs]|[|[k x] ms]]; simpl; try done; intros _; eauto.
Qed.

Lemma skip_ws_value (gap level : nat) (j : json) (rest : string) :
  no_num j →
  ∃ c r, skip_ws (stringify_at gap level j +:+ rest) = String c r
         ∧ stringify_at gap level j +:+ rest = String c r
         ∧ opens_value c = true.
Proof.
  intros Hj. destruct (stringify_at_head gap level j Hj) as (c & r & -> & Hc).
  exists c, (r +:+ rest). simpl.
  destruct (opens_value_inv c Hc) as (-> & _). done.
Qed.

Lemma parse_key_quote (gap : nat) (k rest : string) :
  parse_key (quote k +:+ colon gap +:+ rest)
  = Parsed k (if gap is O then rest else String " " rest).
Proof.
  unfold parse_key, quote. simpl. rewrite sapp_assoc. simpl.
  rewrite parse_chars_escape. simpl. rewrite skip_ws_colon. done.
Qed.

Lemma parse_value_ws (fuel : nat) (s s' : string) :
  skip_ws s = skip_ws s' → parse_value fuel s = parse_value fuel s'.
Proof. intros E. destruct fuel; simpl; [done | by rewrite E]. Qed.

Lemma parse_value_indent (gap level fuel : nat) (s : string) :
  parse_value fuel (newline_indent gap level +:+ s) = parse_value fuel s.
Proof. apply parse_value_ws, skip_ws_newline_indent. Qed.

Lemma parse_value_after_colon (gap fuel : nat) (s : string) :
  parse_value fuel (if gap is O then s else String " " s) = parse_value fuel s.
Proof. destruct gap; [done|]. by apply parse_value_ws. Qed.

Lemma parse_key_indent (gap level : nat) (s : string) :
  parse_key (newline_indent gap level +:+ s) = parse_key s.
Proof. unfold parse_key. by rewrite skip_ws_newline_indent. Qed.

Lemma no_close_before_key (k rest : string) :
  head_is "}" (skip_ws (quote k +:+ rest)) = false.
Proof. done. Qed.

#[local] Opaque quote colon newline_indent parse_key.

Section RoundTrip.
Variable gap : nat.

Lemma parse_items_tail (level inner : nat) (xs : list json) :
  Forall (inverts gap) xs → foldr (λ x acc, no_num x ∧ acc) True xs →
  ∀ rest fuel, (S (foldr (λ x acc, S (descent x + acc)) 0 xs) ≤ fuel)%nat →
  parse_items fuel
    (items_tail (newline_indent gap level +:+ "]")
       (String "," (newline_indent gap inner)) (stringify_at gap inner) xs +:+ rest)
  = Parsed xs rest.
Proof.
  induction 1 as [|x xs Hx _ IH]; simpl; intros Hn rest fuel Hfuel.
  - destruct fuel as [|fuel]; [lia|]. simpl.
    rewrite sapp_assoc, skip_ws_newline_indent. done.
  - destruct Hn as [Hnx Hn]. destruct fuel as [|fuel]; [lia|].
    simpl. rewrite !sapp_assoc. simpl.
    rewrite parse_value_indent, Hx by (done || lia). simpl.
    rewrite IH by (done || lia). done.
Qed.

Lemma parse_members_tail (level inner : nat) (ms : list (string * json)) :
  Forall (λ m, inverts gap m.2) ms → foldr (λ m acc, no_num m.2 ∧ acc) True ms →
  ∀ rest fuel, (S (foldr (λ m acc, S (descent m.2 + acc)) 0 ms) ≤ fuel)%nat →
  parse_members fuel
    (members_tail gap (newline_indent gap level +:+ "}")
       (String "," (newline_indent gap inner)) (stringify_at gap inner) ms +:+ rest)
  = Parsed ms rest.
Proof.
  induction 1 as [|[k x] ms Hx _ IH]; simpl; intros Hn rest fuel Hfuel.
  - destruct fuel as [|fuel]; [lia|]. simpl.
    rewrite sapp_assoc, skip_ws_newline_indent. done.
  - destruct Hn as [Hnx Hn]. destruct fuel as [|fuel]; [lia|].
    simpl in Hx. simpl. rewrite !sapp_assoc. simpl.
    rewrite parse_key_indent, parse_key_quote. simpl.
    rewrite parse_value_after_colon, Hx by (done || lia). simpl.
    rewrite IH by (done || lia). done.
Qed.

Lemma parse_value_stringify_at (j : json) : inverts gap j.
Proof.
  induction j as [|b|n|s|items IH|members IH] using json_ind;
    intros Hn level rest fuel Hfuel;
    (destruct fuel as [|fuel]; [simpl in Hfuel; lia|]).
  - done.
  - by destruct b.
  - done.
  - Transparent quote. simpl. rewrite sapp_assoc. simpl.
    by rewrite parse_chars_escape. Opaque quote.
  - destruct items as [|x xs]; [done|].
    apply Forall_cons in IH as [Hx Hxs]. destruct Hn as [Hnx Hnxs].
    simpl in Hfuel. simpl. rewrite !sapp_assoc.
    rewrite skip_ws_newline_indent.
    match goal with
    | |- context [skip_ws (stringify_at gap (level + gap) x +:+ ?t)] =>
        destruct (skip_ws_value gap (level + gap) x t Hnx) as (c & r & -> & _ & Hc)
    end.
    destruct (opens_value_inv c Hc) as (_ & E & _). simpl. rewrite E.
    rewrite parse_value_indent, Hx by (done || lia). simpl.
    rewrite parse_items_tail by (done || lia). done.
  - destruct members as [|[k x] ms]; [done|].
    apply Forall_cons in IH as [Hx Hxs]. destruct Hn as [Hnx Hnxs].
    simpl in Hfuel, Hx. simpl. rewrite !sapp_assoc.
    rewrite skip_ws_newline_indent.
    rewrite no_close_before_key.
    rewrite parse_key_indent, parse_key_quote. simpl.
    rewrite parse_value_after_colon, Hx by (done || lia). simpl.
    rewrite parse_members_tail by (done || lia). done.
Qed.

End RoundTrip.

#[local] Transparent quote colon newline_indent parse_key.

Lemma descent_le_length (gap level : nat) (j : json) :
  no_num j → (descent j ≤ String.length (stringify_at gap level j))%nat.
Proof.
  revert level.
  induction j as [|b|n|s|items IH|members IH] using json_ind; intros level Hn.
  - simpl; lia.
  - destruct b; simpl; lia.
  - done.
  - simpl; lia.
  - destruct items as [|x xs]; [simpl; lia|].
    apply Forall_cons in IH as [Hx Hxs]. destruct Hn as [Hnx Hnxs].
    cbn [stringify_at descent foldr]. rewrite !slength_app.
    specialize (Hx (level + gap) Hnx).
    assert (S (foldr (λ x acc, S (descent x + acc)) 0 xs)
            ≤ String.length (items_tail (newline_indent gap level +:+ "]")
                (String "," (newline_indent gap (level + gap)))
                (stringify_at gap (level + gap)) xs))%nat as Hrest.
    { clear Hx. induction Hxs as [|y ys Hy _ IHys]; simpl;
        [rewrite slength_app; simpl; lia|].
      destruct Hnxs as [Hny Hnys]. rewrite !slength_app.
      specialize (Hy (level + gap) Hny). specialize (IHys Hnys). simpl. lia. }
    simpl. lia.
  - destruct members as [|[k x] ms]; [simpl; lia|].
    apply Forall_cons in IH as [Hx Hxs]. destruct Hn as [Hnx Hnxs].
    cbn [stringify_at descent foldr]. rewrite !slength_app.
    simpl in Hx. specialize (Hx (level + gap) Hnx).
    assert (S (foldr (λ m acc, S (descent m.2 + acc)) 0 ms)
            ≤ String.length (members_tail gap (newline_indent gap level +:+ "}")
                (String "," (newline_indent gap (level + gap)))
                (stringify_at gap (level + gap)) ms))%nat as Hrest.
    { clear Hx. induction Hxs as [|[k' y] ys Hy _ IHys]; simpl;
        [rewrite slength_app; simpl; lia|].
      destruct Hnxs as [Hny Hnys]. rewrite !slength_app.
      simpl in Hy, Hny.
      specialize (Hy (level + gap) Hny). specialize (IHys Hnys). simpl. rewrite !slength_app. lia. }
    simpl. rewrite !slength_app. lia.
Qed.

(** [JSON.parse(JSON.stringify(v, null, gap))] gives [v] back. *)
Lemma parse_stringify_at (gap : nat) (j : json) :
  no_num j → parse (stringify_at gap 0 j) = Some j.
Proof.
  intros Hn. unfold parse.
  pose proof (descent_le_length gap 0 j Hn) as Hsize.
  rewrite <- (sapp_empty_r (stringify_at gap 0 j)) at 2.
  rewrite parse_value_stringify_at by (done || lia). done.
Qed.
End JSON_facts.

(** ** The descent never runs out of fuel *)

Module JSON_fuel.
Import JSON.
#[local] Open Scope nat_scope.
#[local] Arguments Ascii.eqb : simpl never.
#[local] Arguments N.ltb : simpl never.
#[local] Arguments hex4 : simpl never.
#[local] Arguments utf8 : simpl never.
#[local] Arguments is_high_surrogate : simpl never.
#[local] Arguments low_surrogate_escape : simpl never.
#[local] Arguments is_digit : simpl never.
#[local] Arguments is_ws : simpl never.

Lemma skip_ws_length (s : string) : String.length (skip_ws s) ≤ String.length s.
Proof. induction s as [|c s IH]; simpl; [lia|]. destruct (is_ws c); simpl; lia. Qed.

Lemma tail_length (s : string) : String.length (tail s) ≤ String.length s.
Proof. destruct s; simpl; lia. Qed.

Lemma tail_length_lt (c : ascii) (s : string) :
  head_is c s = true → String.length (tail s) < String.length s.
Proof. destruct s; simpl; [done | lia]. Qed.

Lemma on_tail_inv (f : string → string) (x : option (string * string)) (v rest : string) :
  on_tail f x = Some (v, rest) → ∃ v', x = Some (v', rest).
Proof. destruct x as [[v' r]|]; simpl; [|done]. intros [= _ ->]. by exists v'. Qed.

Lemma strip_prefix_length (p s rest : string) :
  strip_prefix p s = Some rest → String.length rest ≤ String.length s.
Proof.
  revert s. induction p as [|a p IH]; intros [|b s]; simpl; try done.
  - by intros [= <-].
  - by intros [= <-].
  - destruct (Ascii.eqb a b); [|done]. intros Hs%IH. lia.
Qed.

Lemma parse_chars_length (s v rest : string) :
  parse_chars s = Some (v, rest) → String.length rest ≤ String.length s.
Proof.
  remember (String.length s) as n eqn:Hn. assert (String.length s ≤ n) as Hle by lia.
  clear Hn. revert s v rest Hle.
  induction n as [|n IH]; intros [|c s] v rest Hle; cbn [String.length] in Hle;
    try done; try lia.
  cbn [parse_chars]. intros Hp.
  repeat (case_match; simplify_eq; cbn beta iota in * );
    cbn [String.length] in *; try lia;
    try (apply on_tail_inv in Hp as [? Hp]; apply IH in Hp;
         cbn [String.length] in *; lia).
Qed.

Lemma take_digits_length (s : string) :
  String.length (take_digits s).2 ≤ String.length s.
Proof.
  induction s as [|c s IH]; simpl; [lia|].
  destruct (is_digit c); simpl; [|lia]. destruct (take_digits s). simpl in *. lia.
Qed.

Lemma some_digits_length (s d rest : string) :
  some_digits s = Some (d, rest) → String.length rest ≤ String.length s.
Proof.
  unfold some_digits. pose proof (take_digits_length s) as Hl.
  destruct (take_digits s) as [[|c d'] r]; [done|]. intros [= _ <-]. exact Hl.
Qed.

Lemma parse_number_length (s lexeme rest : string) :
  parse_number s = Some (lexeme, rest) → String.length rest ≤ String.length s.
Proof.
  unfold parse_number. intros Hp.
  repeat (case_match; simplify_eq);
    repeat match goal with
      | H : on_tail _ _ = Some _ |- _ => apply on_tail_inv in H as [? H]
      | H : some_digits _ = Some _ |- _ => apply some_digits_length in H
      end;
    repeat match goal with
      | |- context [String.length (tail ?t)] =>
          lazymatch goal with
          | _ : String.length (tail t) ≤ String.length t |- _ => fail
          | _ => pose proof (tail_length t)
          end
      | H : context [String.length (tail ?t)] |- _ =>
          lazymatch goal with
          | _ : String.length (tail t) ≤ String.length t |- _ => fail
          | _ => pose proof (tail_length t)
          end
      end;
    lia.
Qed.

Lemma parse_key_length (s k rest : string) :
  parse_key s = Parsed k rest → String.length rest ≤ String.length s.
Proof.
  unfold parse_key. pose proof (skip_ws_length s) as Hs.
  destruct (head_is dquote (skip_ws s)); [|done].
  pose proof (tail_length (skip_ws s)) as Ht.
  destruct (parse_chars (tail (skip_ws s))) as [[k' r]|] eqn:Hc; simpl; [|done].
  apply parse_chars_length in Hc. pose proof (skip_ws_length r) as Hr.
  destruct (head_is ":" (skip_ws r)); [|done]. intros [= _ <-].
  pose proof (tail_length (skip_ws r)). lia.
Qed.

Lemma and_then_Parsed {A B : Type} (p : parsed A) (k : A → string → parsed B)
    (b : B) (rest : string) :
  and_then p k = Parsed b rest → ∃ a r, p = Parsed a r ∧ k a r = Parsed b rest.
Proof. destruct p; simpl; [eauto | done | done]. Qed.

Lemma and_then_OutOfFuel {A B : Type} (p : parsed A) (k : A → string → parsed B) :
  and_then p k = OutOfFuel → p = OutOfFuel ∨ ∃ a r, p = Parsed a r ∧ k a r = OutOfFuel.
Proof. destruct p; simpl; [eauto | done | eauto]. Qed.

(** Each parser returns a suffix of what it was given. *)
Lemma parse_length (fuel : nat) :
  (∀ s v rest, parse_value fuel s = Parsed v rest → String.length rest ≤ String.length s)
  ∧ (∀ s v rest, parse_items fuel s = Parsed v rest → String.length rest ≤ String.length s)
  ∧ (∀ s v rest, parse_members fuel s = Parsed v rest → String.length rest ≤ String.length s).
Proof.
  induction fuel as [|fuel (IHv & IHi & IHm)]; [by repeat split|].
  repeat split; intros s v rest; simpl; pose proof (skip_ws_length s) as Hs.
  - destruct (skip_ws s) as [|c r]; [done|]. simpl in Hs.
    repeat case_match; simplify_eq.
    + unfold literal. destruct (strip_prefix _ r) eqn:E; [|done].
      apply strip_prefix_length in E. intros [= _ <-]. lia.
    + unfold literal. destruct (strip_prefix _ r) eqn:E; [|done].
      apply strip_prefix_length in E. intros [= _ <-]. lia.
    + unfold literal. destruct (strip_prefix _ r) eqn:E; [|done].
      apply strip_prefix_length in E. intros [= _ <-]. lia.
    + destruct (parse_chars r) as [[x r']|] eqn:E; [|done].
      apply parse_chars_length in E. intros [= _ <-]. lia.
    + intros [= _ <-]. pose proof (skip_ws_length r). pose proof (tail_length (skip_ws r)). lia.
    + intros (x & r1 & Hx%IHv & (xs & r2 & Hxs%IHi & [= _ <-])%and_then_Parsed)%and_then_Parsed.
      lia.
    + intros [= _ <-]. pose proof (skip_ws_length r). pose proof (tail_length (skip_ws r)). lia.
    + intros (k & r1 & Hk%parse_key_length
              & (x & r2 & Hx%IHv & (xs & r3 & Hxs%IHm & [= _ <-])%and_then_Parsed)%and_then_Parsed)%and_then_Parsed.
      lia.
    + destruct (parse_number (String c r)) as [[x r']|] eqn:E; [|done].
      apply parse_number_length in E. simpl in E. intros [= _ <-]. lia.
  - pose proof (tail_length (skip_ws s)) as Ht. repeat case_match; try done.
    + intros [= _ <-]. lia.
    + intros (x & r1 & Hx%IHv & (xs & r2 & Hxs%IHi & [= _ <-])%and_then_Parsed)%and_then_Parsed.
      lia.
  - pose proof (tail_length (skip_ws s)) as Ht. repeat case_match; try done.
    + intros [= _ <-]. lia.
    + intros (k & r1 & Hk%parse_key_length
              & (x & r2 & Hx%IHv & (xs & r3 & Hxs%IHm & [= _ <-])%and_then_Parsed)%and_then_Parsed)%and_then_Parsed.
      lia.
Qed.

Lemma of_option_fuel {A : Type} (o : option (A * string)) : of_option o ≠ OutOfFuel.
Proof. by destruct o as [[]|]. Qed.

Lemma parse_key_fuel (s : string) : parse_key s ≠ OutOfFuel.
Proof.
  unfold parse_key. case_match; [|done].
  destruct (parse_chars _) as [[]|]; simpl; [|done]. by case_match.
Qed.

(** With more fuel than characters, no parser gives up. *)
Lemma parse_fuel (fuel : nat) :
  (∀ s, String.length s < fuel → parse_value fuel s ≠ OutOfFuel)
  ∧ (∀ s, String.length s < fuel → parse_items fuel s ≠ OutOfFuel)
  ∧ (∀ s, String.length s < fuel → parse_members fuel s ≠ OutOfFuel).
Proof.
  induction fuel as [|fuel (IHv & IHi & IHm)]; [repeat split; intros; lia|].
  destruct (parse_length fuel) as (Lv & Li & Lm).
  repeat split; intros s Hlen; simpl; pose proof (skip_ws_length s) as Hs.
  - destruct (skip_ws s) as [|c r]; [done|]. simpl in Hs.
    repeat case_match; try done;
      try (unfold literal; apply of_option_fuel).
    + intros [E|(? & ? & E & ?)]%and_then_OutOfFuel; [|done]. by apply of_option_fuel in E.
    + intros [E|(x & r1 & Hx & [E|(? & ? & ? & ?)]%and_then_OutOfFuel)]%and_then_OutOfFuel;
        [| |done].
      * apply IHv in E; [done | lia].
      * apply Lv in Hx. apply IHi in E; [done | lia].
    + intros [E|(k & r1 & Hk & [E|(x & r2 & Hx & [E|(? & ? & ? & ?)]%and_then_OutOfFuel)]%and_then_OutOfFuel)]%and_then_OutOfFuel;
        [| | |done].
      * by apply parse_key_fuel in E.
      * apply parse_key_length in Hk. apply IHv in E; [done | lia].
      * apply parse_key_length in Hk. apply Lv in Hx. apply IHm in E; [done | lia].
    + intros [E|(? & ? & E & ?)]%and_then_OutOfFuel; [|done]. by apply of_option_fuel in E.
  - pose proof (tail_length (skip_ws s)) as Ht. repeat case_match; try done.
    assert (String.length (tail (skip_ws s)) < String.length (skip_ws s))
      by by eapply tail_length_lt.
    intros [E|(x & r1 & Hx & [E|(? & ? & ? & ?)]%and_then_OutOfFuel)]%and_then_OutOfFuel;
      [| |done].
    + apply IHv in E; [done | lia].
    + apply Lv in Hx. apply IHi in E; [done | lia].
  - pose proof (tail_length (skip_ws s)) as Ht. repeat case_match; try done.
    assert (String.length (tail (skip_ws s)) < String.length (skip_ws s))
      by by eapply tail_length_lt.
    intros [E|(k & r1 & Hk & [E|(x & r2 & Hx & [E|(? & ? & ? & ?)]%and_then_OutOfFuel)]%and_then_OutOfFuel)]%and_then_OutOfFuel;
      [| | |done].
    + by apply parse_key_fuel in E.
    + apply parse_key_length in Hk. apply IHv in E; [done | lia].
    + apply parse_key_length in Hk. apply Lv in Hx. apply IHm in E; [done | lia].
Qed.

(** [parse] answers [None] only for text that is not JSON: the descent it
    starts is never cut short. *)
Lemma parse_total (text : string) :
  parse_value (S (String.length text)) text ≠ OutOfFuel.
Proof. apply parse_fuel. lia. Qed.

(** So [parse text = None] means a syntax error, or text after the value. *)
Lemma parse_None (text : string) :
  parse text = None →
  parse_value (S (String.length text)) text = SyntaxError
  ∨ ∃ v rest, parse_value (S (String.length text)) text = Parsed v rest
              ∧ skip_ws rest ≠ EmptyString.
Proof.
  unfold parse. pose proof (parse_total text) as Htotal.
  destruct (parse_value _ text) as [v rest| |]; [|by left|done].
  destruct (skip_ws rest) as [|c r] eqn:E; [done|]. intros _. right.
  exists v, rest. split; [done|]. by rewrite E.
Qed.

End JSON_fuel.

(** ** The encoders and the typed views *)

Section Codec_facts.
Import JSON JSON_facts.

Lemma members_map_snoc (ms : list (string * json)) (k : string) (v : json) :
  members_map (ms ++ [(k, v)]) = <[k := v]> (members_map ms).
Proof. unfold members_map. by rewrite foldl_app. Qed.

(** Without repeated names the object is the member list read as a map. *)
Lemma members_map_reverse (ms : list (string * json)) :
  members_map ms = list_to_map (reverse ms).
Proof.
  induction ms as [|[k v] ms IH] using rev_ind; [done|].
  by rewrite members_map_snoc, reverse_snoc, IH.
Qed.

(** Without repeated names the object is the member list read as a map. *)
Lemma members_map_NoDup (ms : list (string * json)) :
  NoDup ms.*1 → members_map ms = list_to_map ms.
Proof.
  intros Hnd. rewrite members_map_reverse.
  apply list_to_map_proper; [|apply reverse_Permutation].
  rewrite fmap_reverse. by rewrite reverse_Permutation.
Qed.

Lemma as_SubscriptionKeys_to_json (k : SubscriptionKeys) :
  as_SubscriptionKeys (JObj [ ("p256dh", JStr (p256dh k)); ("auth", JStr (auth k)) ])
  = Some k.
Proof. by destruct k. Qed.

Lemma as_Subscription_to_json (s : Subscription) :
  as_Subscription (Subscription_to_json s) = Some s.
Proof. by destruct s as [e [p a]]. Qed.

Lemma as_StoredSubscription_to_json (r : StoredSubscription) :
  as_StoredSubscription (StoredSubscription_to_json r) = Some r.
Proof. by destruct r as [[e [p a]] c [n|]]. Qed.

Lemma as_VapidKeys_to_json (k : VapidKeys) :
  as_VapidKeys (VapidKeys_to_json k) = Some k.
Proof. by destruct k. Qed.

Lemma no_num_StoredSubscription (r : StoredSubscription) :
  no_num (StoredSubscription_to_json r).
Proof. destruct r as [[e [p a]] c [n|]]; simpl; tauto. Qed.

Lemma no_num_VapidKeys (k : VapidKeys) : no_num (VapidKeys_to_json k).
Proof. simpl; tauto. Qed.

Lemma no_num_subscriptions (o : JsObject) : no_num (subscriptions_to_json o).
Proof.
  unfold subscriptions_to_json. simpl.
  induction (map_to_list (own o)) as [|[k r] l IH]; simpl; [done|].
  split; [apply no_num_StoredSubscription | done].
Qed.

Lemma members_map_subscriptions (o : JsObject) :
  members_map (prod_map id StoredSubscription_to_json <$> map_to_list (own o))
  = StoredSubscription_to_json <$> own o.
Proof.
  rewrite members_map_NoDup.
  - rewrite list_to_map_fmap. by rewrite list_to_map_to_list.
  - rewrite <- list_fmap_compose.
    replace ((fst ∘ prod_map id StoredSubscription_to_json) <$> map_to_list (own o))
      with ((map_to_list (own o)).*1); [apply NoDup_fst_map_to_list|].
    apply list_fmap_ext. by intros ? [].
Qed.

(** Reading back what [saveSubscriptions] encodes gives the own
    properties, on a fresh object. *)
Lemma as_subscriptions_to_json (o : JsObject) :
  as_subscriptions (subscriptions_to_json o) = Some (spread o).
Proof.
  unfold as_subscriptions, subscriptions_to_json.
  rewrite members_map_subscriptions.
  rewrite bool_decide_eq_true_2.
  - unfold spread. do 2 f_equal. apply map_eq. intros i.
    rewrite lookup_omap, lookup_fmap.
    destruct (own o !! i) as [r|]; simpl; [|done].
    apply as_StoredSubscription_to_json.
  - intros i j. rewrite lookup_fmap. intros Hj.
    destruct (own o !! i) as [r|]; [|done]. injection Hj as <-.
    rewrite as_StoredSubscription_to_json. by eexists.
Qed.

Lemma parse_subscriptions (o : JsObject) :
  JSON.parse (stringify_pretty (subscriptions_to_json o)) ≫= as_subscriptions
  = Some (spread o).
Proof.
  unfold stringify_pretty.
  rewrite parse_stringify_at by apply no_num_subscriptions. simpl.
  apply as_subscriptions_to_json.
Qed.

Lemma parse_VapidKeys (k : VapidKeys) :
  JSON.parse (stringify_pretty (VapidKeys_to_json k)) = Some (VapidKeys_to_json k).
Proof. apply parse_stringify_at, no_num_VapidKeys. Qed.

End Codec_facts.

(** ** The subscription store *)

Section Vapush_facts.
Context `{Collaborators}.
Import JSON.

Ltac run :=
  unfold store, subscribe, unsubscribe, getSubscriptions, pushTo, push, saveSubscriptions,
    loadOrCreateKeys, send, bind, ret, subscriptions, set_subscriptions, emit,
    ask, readFile, writeFile, subFile, keyFile, holding; simpl.

(** *** Lookup on the plain object *)

Lemma get_own (o : JsObject) (id : string) (r : StoredSubscription) :
  own o !! id = Some r → get o id = VStored r.
Proof. unfold get. by intros ->. Qed.

Lemma truthy_get_own (o : JsObject) (id : string) :
  is_Some (own o !! id) → truthy (get o id) = true.
Proof. intros [r Hr]. by rewrite (get_own _ _ _ Hr). Qed.

(** A name that is neither an own property nor inherited reads as
    [undefined]. *)
Lemma get_absent (o : JsObject) (id : string) :
  own o !! id = None → proto o = ObjectPrototype → inherited id = false →
  get o id = VUndefined.
Proof. unfold get. by intros -> -> ->. Qed.

Lemma own_set_ne (o : JsObject) (id id' : string) (r : StoredSubscription) :
  id ≠ id' → own (set o id r) !! id' = own o !! id'.
Proof.
  intros Hne. unfold set.
  destruct (String.eqb id "__proto__"); [destruct (own o !! id)|]; simpl;
    by rewrite ?lookup_insert_ne.
Qed.

Lemma own_set_eq (o : JsObject) (id : string) (r : StoredSubscription) :
  id ≠ "__proto__" → own (set o id r) !! id = Some r.
Proof.
  intros Hne. unfold set.
  destruct (String.eqb_spec id "__proto__"); [done|]. simpl.
  by rewrite lookup_insert_eq.
Qed.

Lemma since_app (s s' : System) (events : list Event) :
  trace s' = (events ++ trace s)%list → since s s' = events.
Proof.
  intros E. unfold since. rewrite E, length_app.
  replace (length events + length (trace s) - length (trace s)) with (length events) by lia.
  by rewrite take_app_length.
Qed.

(** *** [unsubscribe] *)

(** Unknown id, the intended case: nothing happens. *)
Lemma unsubscribe_absent (s : System) (id : string) :
  store s !! id = None → proto (this_subscriptions (this s)) = ObjectPrototype →
  inherited id = false →
  unsubscribe id s = (false, s).
Proof.
  intros Hown Hproto Hinh. run.
  by rewrite (get_absent _ _ Hown Hproto Hinh).
Qed.

(** Known id: the record goes, the map is written once, and what was
    written reads back as the map without the record. *)
Lemma unsubscribe_present (s : System) (id : string) :
  is_Some (store s !! id) →
  let '(removed, s') := unsubscribe id s in
  removed = true
  ∧ store s' = delete id (store s)
  ∧ own (getSubscriptions s').1 !! id = None
  ∧ ∃ text,
      since s s' = [WriteFile (path_join (this_dataDir (this s)) "subscriptions.json") text None]
      ∧ files s' = <[path_join (this_dataDir (this s)) "subscriptions.json" := text]> (files s)
      ∧ JSON.parse text ≫= as_subscriptions = Some (spread (this_subscriptions (this s'))).
Proof.
  intros Hown. run. rewrite (truthy_get_own _ _ Hown). simpl.
  rewrite lookup_delete_eq. repeat split; try done.
  eexists; repeat split; [by apply (since_app _ _ [_]) | apply parse_subscriptions].
Qed.

(** C2, at the input where the code departs from it: on an empty store
    [unsubscribe("constructor")] finds the inherited
    [Object.prototype.constructor], takes the id for a subscriber,
    rewrites the file and returns [true], although the store holds no
    such id. *)
Theorem unsubscribe_inherited_name (dir subj : string) (ks : option json)
    (fs : gmap string string) (w : world) (tr : list Event) :
  let s := holding empty_object dir subj ks fs w tr in
  store s !! "constructor" = None
  ∧ (unsubscribe "constructor" s).1 = true
  ∧ trace (unsubscribe "constructor" s).2
    = WriteFile (path_join dir "subscriptions.json") "{}" None :: tr.
Proof. done. Qed.

(** *** [subscribe] and [getSubscriptions] *)

(** The intended case of C3: any id but ["__proto__"] is listed with the
    descriptor, the timestamp the clock gave and the name, whatever was
    stored under it before. *)
Lemma subscribe_then_list (s : System) (id : string) (sub : Subscription)
    (name : option string) :
  id ≠ "__proto__" →
  own (getSubscriptions (subscribe id sub name s).2).1 !! id
  = Some {| subscription := sub; createdAt := (toISOString (outside s)).1; name := name |}.
Proof.
  intros Hne. run. destruct (toISOString (outside s)) as [now w]. simpl.
  by apply own_set_eq.
Qed.

(** C3, at the input where the code departs from it: the assignment
    [this.subscriptions["__proto__"] = record] replaces the prototype of
    the map and creates no property, so the id is not listed (and an
    empty map is written to the file). *)
Theorem subscribe_proto_not_listed (dir subj : string) (ks : option json)
    (fs : gmap string string) (w : world) (tr : list Event)
    (sub : Subscription) (name : option string) :
  let s := holding empty_object dir subj ks fs w tr in
  let s' := (subscribe "__proto__" sub name s).2 in
  own (getSubscriptions s').1 !! "__proto__" = None
  ∧ files s' !! path_join dir "subscriptions.json" = Some "{}".
Proof.
  run. destruct (toISOString w) as [now w']. simpl.
  split; [done | by rewrite lookup_insert_eq].
Qed.

(** C10: [subscribe(id, ...)] leaves the record stored under any other
    id as it was. *)
Theorem subscribe_frame (s : System) (id id' : string) (sub : Subscription)
    (name : option string) :
  id ≠ id' →
  store (subscribe id sub name s).2 !! id' = store s !! id'.
Proof.
  intros Hne. run. destruct (toISOString (outside s)) as [now w]. simpl.
  by apply own_set_ne.
Qed.

(** *** [pushTo] *)

(** Unknown id, the intended case of C9. *)
Lemma pushTo_absent (s : System) (id title body : string) (url : option string) :
  store s !! id = None → proto (this_subscriptions (this s)) = ObjectPrototype →
  inherited id = false →
  pushTo id title body url s = (false, s).
Proof.
  intros Hown Hproto Hinh. run.
  by rewrite (get_absent _ _ Hown Hproto Hinh).
Qed.

(** C9, at the input where the code departs from it: on an empty store
    [pushTo("constructor", ...)] takes the inherited
    [Object.prototype.constructor] for a record and calls
    [sendNotification(undefined, payload)]. *)
Theorem pushTo_inherited_name_sends (dir subj : string) (ks : option json)
    (fs : gmap string string) (w : world) (tr : list Event)
    (title body : string) (url : option string) :
  let s := holding empty_object dir subj ks fs w tr in
  store s !! "constructor" = None
  ∧ ∃ later, trace (pushTo "constructor" title body url s).2
             = (later ++ SendNotification None (payload_of title body url) :: tr)%list.
Proof.
  split; [done|]. run.
  change (get empty_object "constructor") with VBuiltin. simpl.
  destruct (sendNotification None (payload_of title body url) w) as [[|code] w'].
  - by exists [].
  - destruct (gone code); simpl; [by eexists [_] | by exists []].
Qed.

(** *** [push] *)

Lemma own_foldl_remove (o : JsObject) (ids : list string) (id : string) :
  own (foldl remove o ids) !! id
  = if decide (id ∈ ids) then None else own o !! id.
Proof.
  revert o. induction ids as [|x ids IH]; intros o; simpl.
  - destruct (decide (id ∈ [])) as [Hin|_]; [by apply elem_of_nil in Hin | done].
  - rewrite IH. simpl.
    destruct (decide (id ∈ ids)) as [Hin|Hnin], (decide (id ∈ x :: ids)) as [Hin'|Hnin'];
      try done.
    + exfalso. apply Hnin'. by right.
    + apply elem_of_cons in Hin' as [->|?]; [|done]. apply lookup_delete_eq.
    + apply lookup_delete_ne. intros ->. apply Hnin'. by left.
Qed.

Lemma NoDup_fmap_fst_filter {A : Type} (P : string * A → Prop)
    `{∀ x, Decision (P x)} (l : list (string * A)) :
  NoDup l.*1 → NoDup (filter P l).*1.
Proof.
  induction l as [|[k a] l IH]; [done|].
  rewrite fmap_cons. intros [Hk Hl]%NoDup_cons. rewrite filter_cons.
  destruct (decide (P (k, a))); [|by apply IH].
  rewrite fmap_cons. apply NoDup_cons. split; [|by apply IH].
  intros Hin. apply Hk. apply list_elem_of_fmap in Hin as ([k' a'] & -> & Hin).
  apply list_elem_of_filter in Hin as [_ Hin].
  apply list_elem_of_fmap. by exists (k', a').
Qed.

Lemma proto_foldl_remove (o : JsObject) (ids : list string) :
  proto (foldl remove o ids) = proto o.
Proof. revert o. induction ids as [|x ids IH]; intros o; simpl; [done | by rewrite IH]. Qed.

Lemma attempt_spec (payload id : string) (s : System) :
  ∃ events,
    this (attempt payload id s).2 = this s
    ∧ files (attempt payload id s).2 = files s
    ∧ trace (attempt payload id s).2 = (events ++ trace s)%list
    ∧ writes events = 0
    ∧ (is_Some (store s !! id) → sends events = 1).
Proof.
  unfold attempt, store. run.
  destruct (own (this_subscriptions (this s)) !! id) as [r|] eqn:Hown.
  - rewrite (get_own _ _ _ Hown). run.
    destruct (sendNotification _ _ _) as [a w'].
    by exists [SendNotification (Some (subscription r)) payload].
  - destruct (get (this_subscriptions (this s)) id); run;
      try (destruct (sendNotification _ _ _) as [a w']; eexists [_];
           repeat split; try done; by intros [? ?]).
    exists []. by repeat split.
Qed.

Lemma send_each_cons (payload id : string) (ids : list string) (s : System) :
  send_each payload (id :: ids) s
  = let '(r, s1) := attempt payload id s in
    let '(rs, s2) := send_each payload ids s1 in
    ((id, r) :: rs, s2).
Proof. done. Qed.

(** The issuing phase touches neither the instance nor the files; it
    only calls the push library, once per id that is a property. *)
Lemma send_each_spec (payload : string) (ids : list string) (s : System) :
  ∃ events,
    this (send_each payload ids s).2 = this s
    ∧ files (send_each payload ids s).2 = files s
    ∧ (send_each payload ids s).1.*1 = ids
    ∧ trace (send_each payload ids s).2 = (events ++ trace s)%list
    ∧ writes events = 0
    ∧ (Forall (λ id, is_Some (store s !! id)) ids → sends events = length ids).
Proof.
  revert s. induction ids as [|id ids IH]; intros s.
  - exists []. by repeat split.
  - rewrite send_each_cons.
    destruct (attempt_spec payload id s) as (ev & Hthis & Hfiles & Htrace & Hw & Hs).
    destruct (attempt payload id s) as [r s1]. simpl in *.
    destruct (IH s1) as (events & Hthis' & Hfiles' & Hids & Htrace' & Hw' & Hs').
    destruct (send_each payload ids s1) as [rs s2]. simpl in *.
    exists (events ++ ev)%list. repeat split.
    + by rewrite Hthis'.
    + by rewrite Hfiles'.
    + f_equal. exact Hids.
    + by rewrite Htrace', Htrace, app_assoc.
    + unfold writes in *. rewrite filter_app, length_app. lia.
    + intros [Hid Hrest]%Forall_cons. unfold sends in *.
      rewrite filter_app, length_app. rewrite Hs by done.
      rewrite Hs'; [lia|]. unfold store in *. by rewrite Hthis.
Qed.

Lemma length_filter_split {A : Type} (P : A → Prop) `{∀ x, Decision (P x)} (l : list A) :
  length (filter P l) + length (filter (λ x, ¬ P x) l) = length l.
Proof. by rewrite <- length_app, filter_app_complement. Qed.

Lemma rejected_split (l : list (string * SendResult)) :
  length (filter (λ a, delivered a = false) l)
  = length (filter (λ a, failed_permanently a = true) l)
    + length (filter (λ a, delivered a = false ∧ failed_permanently a = false) l).
Proof.
  induction l as [|[id r] l IH]; [done|].
  rewrite !filter_cons. unfold delivered, failed_permanently in *. simpl.
  destruct r as [|code]; [|destruct (gone code)];
    repeat case_decide; simpl; try lia; naive_solver.
Qed.

Lemma push_unfold (title body : string) (url : option string) (s : System) :
  push title body url s
  = let payload := payload_of title body url in
    let '(issued, s1) := send_each payload (Object_keys (this_subscriptions (this s))) s in
    let settled := settle_order (outside s1) _ issued in
    let toRemove := (filter (λ a, failed_permanently a = true) settled).*1 in
    let s2 := (set_subscriptions (foldl remove (this_subscriptions (this s1)) toRemove) s1).2 in
    ({| success := length (filter (λ a, delivered a = true) settled);
        failed := length (filter (λ a, delivered a = false) settled) |},
     if Nat.ltb 0 (length toRemove) then (saveSubscriptions s2).2 else s2).
Proof.
  unfold push, push_ids, bind at 1, subscriptions at 1. unfold bind at 1.
  destruct (send_each _ _ s) as [issued s1]. simpl.
  unfold bind, subscriptions, ret. simpl.
  by destruct (Nat.ltb 0 _).
Qed.

(** [push] in terms of the tests it applies to the outcome of each
    attempt. *)
Lemma push_by_tests (s : System) (title body : string) (url : option string) :
  let ids := Object_keys (this_subscriptions (this s)) in
  let attempts := (send_each (payload_of title body url) ids s).1 in
  let gone_ids := (filter (λ a, failed_permanently a = true) attempts).*1 in
  let K := length gone_ids in
  let other :=
    length (filter (λ a, delivered a = false ∧ failed_permanently a = false) attempts) in
  let N := size (store s) in
  let result := (push title body url s).1 in
  let s' := (push title body url s).2 in
  attempts.*1 = ids
  ∧ length attempts = N
  ∧ sends (since s s') = N
  ∧ success result + K + other = N
  ∧ success result = N - K - other
  ∧ failed result = K + other
  ∧ NoDup gone_ids
  ∧ (∀ id, store s' !! id = if decide (id ∈ gone_ids) then None else store s !! id)
  ∧ writes (since s s') = (if decide (K = 0) then 0 else 1)
  ∧ files s'
    = if decide (K = 0) then files s
      else <[path_join (this_dataDir (this s)) "subscriptions.json" :=
               stringify_pretty (subscriptions_to_json (this_subscriptions (this s')))]>
             (files s).
Proof.
  intros ids attempts gone_ids K other N result s'.
  subst result s'. rewrite push_unfold. cbv zeta.
  destruct (send_each_spec (payload_of title body url) ids s)
    as (events & Hthis & Hfiles & Hids & Htrace & Hw & Hs).
  fold ids. subst attempts.
  destruct (send_each (payload_of title body url) ids s) as [issued s1].
  simpl in Hthis, Hfiles, Hids, Htrace, gone_ids, other, K |- *.
  pose proof (settle_order_perm (outside s1) _ issued) as Hperm.
  set (settled := settle_order (outside s1) _ issued) in *.
  assert (length issued = N) as Hlen.
  { subst N ids. rewrite <- (length_fmap fst issued), Hids.
    unfold Object_keys, store. by rewrite length_fmap, length_map_to_list. }
  assert (NoDup issued.*1) as Hnd.
  { rewrite Hids. apply NoDup_fst_map_to_list. }
  assert ((filter (λ a, failed_permanently a = true) settled).*1 ≡ₚ gone_ids) as Hgone.
  { subst gone_ids. by rewrite Hperm. }
  assert (length (filter (λ a, delivered a = true) settled)
          + length (filter (λ a, delivered a = false) settled) = N) as Hsum.
  { rewrite <- Hlen, <- (Permutation_length Hperm).
    rewrite <- (length_filter_split (λ a, delivered a = true) settled).
    f_equal. f_equal. apply list_filter_iff. intros a. by destruct (delivered a). }
  assert (length (filter (λ a, delivered a = false) settled) = K + other) as Hfailed.
  { rewrite Hperm, rejected_split. subst K other gone_ids. by rewrite length_fmap. }
  assert (length (filter (λ a, failed_permanently a = true) settled).*1 = K) as HK.
  { subst K. by rewrite Hgone. }
  assert (sends events = N) as Hsends.
  { rewrite <- Hlen, <- (length_fmap fst issued), Hids. apply Hs.
    apply Forall_forall. intros id Hid. subst ids. unfold Object_keys in Hid.
    apply list_elem_of_fmap in Hid as ([k r] & -> & Hkr).
    apply elem_of_map_to_list in Hkr. by exists r. }
  split; [done|]. split; [done|].
  assert (NoDup gone_ids) as Hndg.
  { subst gone_ids. eapply NoDup_fmap_fst_filter; done. }
  rewrite HK.
  destruct (decide (K = 0)) as [HK0|HK0].
  - rewrite HK0. simpl. run. rewrite Hthis.
    repeat split; try done; try lia.
    + rewrite (since_app _ _ events) by done. done.
    + intros id. rewrite own_foldl_remove.
      destruct (decide (id ∈ _)) as [Hin|Hnin], (decide (id ∈ gone_ids)) as [Hin'|Hnin'];
        try done.
      * by rewrite Hgone in Hin.
      * by rewrite <- Hgone in Hin'.
    + by rewrite (since_app _ _ events).
  - destruct K as [|K']; [done|]. simpl. run. rewrite Hthis, Hfiles, Htrace.
    repeat split; try done; try lia.
    + rewrite (since_app _ _ (_ :: events)) by done. unfold sends in *.
      by rewrite filter_cons.
    + intros id. rewrite own_foldl_remove.
      destruct (decide (id ∈ _)) as [Hin|Hnin], (decide (id ∈ gone_ids)) as [Hin'|Hnin'];
        try done.
      * by rewrite Hgone in Hin.
      * by rewrite <- Hgone in Hin'.
    + rewrite (since_app _ _ (_ :: events)) by done. unfold writes in *.
      rewrite filter_cons. simpl. by rewrite Hw.
Qed.

Lemma attempt_entry (payload id : string) (r : StoredSubscription) (s : System) :
  store s !! id = Some r →
  (attempt payload id s).1 = (sendNotification (Some (subscription r)) payload (outside s)).1
  ∧ outside (attempt payload id s).2
    = (sendNotification (Some (subscription r)) payload (outside s)).2
  ∧ this (attempt payload id s).2 = this s.
Proof.
  intros Hr. unfold attempt, store in *. run. rewrite (get_own _ _ _ Hr). run.
  by destruct (sendNotification _ _ _).
Qed.

(** The attempts of [send_each] are the answers of the push library. *)
Lemma send_each_answers (payload : string) (entries : list (string * StoredSubscription))
    (s : System) :
  Forall (λ kr, store s !! kr.1 = Some kr.2) entries →
  (send_each payload entries.*1 s).1 = library_answers payload entries (outside s).
Proof.
  revert s. induction entries as [|[id r] entries IH]; intros s Hall; [done|].
  apply Forall_cons in Hall as [Hr Hall]. simpl in Hr.
  rewrite fmap_cons, send_each_cons. cbn [fst library_answers].
  destruct (attempt_entry payload id r s Hr) as (Ha & Hw & Hthis).
  destruct (attempt payload id s) as [a s1]. simpl in Ha, Hw, Hthis.
  specialize (IH s1). rewrite Hw in IH.
  destruct (send_each payload entries.*1 s1) as [rs s2]. simpl in IH |- *.
  destruct (sendNotification _ _ _) as [answer w']. simpl in *. subst a.
  f_equal. apply IH. eapply Forall_impl; [exact Hall|].
  intros kr. unfold store. by rewrite Hthis.
Qed.

(** The test of the [catch] block is for the statuses 404 and 410, and
    the [try] block counts the fulfilled promises. *)
Lemma failed_permanently_status (a : string * SendResult) :
  failed_permanently a = true
  ↔ a.2 = Rejected (Some 404%Z) ∨ a.2 = Rejected (Some 410%Z).
Proof.
  unfold failed_permanently, gone. destruct a as [id [|[c|]]]; simpl.
  - split; [done | by intros [|]].
  - rewrite orb_true_iff, !Z.eqb_eq. split.
    + intros [Hc | Hc]; rewrite Hc; [by left | by right].
    + intros [Hc | Hc]; injection Hc as Hc; [by left | by right].
  - split; [done | by intros [|]].
Qed.

(** C1: [answers] is what the push library answers for the subscribers
    of the map. [push] asks it once per subscriber, counts as success
    the answers [Delivered] and as failed all others, removes exactly the
    subscribers for whom the answer was a rejection with status 404 or
    410, keeps all others, and rewrites the file once if something was
    removed and not at all otherwise. The order in which the answers
    arrive does not matter. *)
Theorem push_prunes_gone (s : System) (title body : string) (url : option string) :
  let answers :=
    library_answers (payload_of title body url) (map_to_list (store s)) (outside s) in
  let permanent (a : string * SendResult) : bool :=
    match a.2 with
    | Rejected (Some status) => bool_decide (status = 404 ∨ status = 410)%Z
    | _ => false
    end in
  let succeeded (a : string * SendResult) : bool :=
    match a.2 with
    | Delivered => true
    | Rejected _ => false
    end in
  let gone_ids := (filter (λ a, permanent a = true) answers).*1 in
  let K := length gone_ids in
  let other :=
    length (filter (λ a, succeeded a = false ∧ permanent a = false) answers) in
  let N := size (store s) in
  let result := (push title body url s).1 in
  let s' := (push title body url s).2 in
  answers.*1 = (map_to_list (store s)).*1
  ∧ length answers = N
  ∧ sends (since s s') = N
  ∧ success result = length (filter (λ a, succeeded a = true) answers)
  ∧ success result + K + other = N
  ∧ success result = N - K - other
  ∧ failed result = K + other
  ∧ NoDup gone_ids
  ∧ (∀ id, store s' !! id = if decide (id ∈ gone_ids) then None else store s !! id)
  ∧ writes (since s s') = (if decide (K = 0) then 0 else 1)
  ∧ files s'
    = if decide (K = 0) then files s
      else <[path_join (this_dataDir (this s)) "subscriptions.json" :=
               stringify_pretty (subscriptions_to_json (this_subscriptions (this s')))]>
             (files s).
Proof.
  intros answers permanent succeeded gone_ids K other N result s'.
  assert (∀ a, permanent a = true ↔ failed_permanently a = true) as Hperm.
  { intros a. rewrite failed_permanently_status. subst permanent. cbv beta.
    destruct a as [id [|[c|]]]; simpl; rewrite ?bool_decide_eq_true.
    - split; [done | by intros [|]].
    - split.
      + intros [Hc | Hc]; rewrite Hc; [by left | by right].
      + intros [Hc | Hc]; injection Hc as Hc; [by left | by right].
    - split; [done | by intros [|]]. }
  assert (∀ a, succeeded a = delivered a) as Hsucc by (by intros [id [|c]]).
  assert ((send_each (payload_of title body url)
             (Object_keys (this_subscriptions (this s))) s).1 = answers) as Hanswers.
  { unfold Object_keys. apply send_each_answers.
    apply Forall_forall. intros [id r] Hin. by apply elem_of_map_to_list in Hin. }
  assert (filter (λ a, permanent a = true) answers
          = filter (λ a, failed_permanently a = true) answers) as Hfilter
    by (apply list_filter_iff; intros a; apply Hperm).
  assert (filter (λ a, succeeded a = false ∧ permanent a = false) answers
          = filter (λ a, delivered a = false ∧ failed_permanently a = false) answers)
    as Hother.
  { apply list_filter_iff. intros a. rewrite Hsucc.
    pose proof (Hperm a) as [H1 H2].
    destruct (permanent a), (failed_permanently a); try tauto.
    - specialize (H1 eq_refl). discriminate H1.
    - specialize (H2 eq_refl). discriminate H2. }
  assert (success result = length (filter (λ a, succeeded a = true) answers)) as Hcount.
  { subst result. rewrite push_unfold. cbv zeta.
    rewrite <- Hanswers.
    destruct (send_each _ _ s) as [issued s1]. cbn [fst success].
    by rewrite (settle_order_perm (outside s1) _ issued). }
  pose proof (push_by_tests s title body url) as Hcode. cbv zeta in Hcode.
  rewrite Hanswers in Hcode. fold N in Hcode.
  subst gone_ids K other. rewrite Hfilter, Hother.
  destruct Hcode as (Hids & Hlen & Hsends & Hsum & Hsuccess & Hfailed & Hnd & Hstore
                     & Hwrites & Hfiles).
  repeat split; assumption.
Qed.

(** *** Persistence *)

(** C4: what [saveSubscriptions] writes, a new process reads back with
    [loadSubscriptions] as the same map, records with and without [name]
    alike. *)
Theorem save_then_load (s : System) (subj : string) :
  ∃ s', loadSubscriptions (restart subj (saveSubscriptions s).2) = LoadedStore s'
        ∧ store s' = store s
        ∧ this_subscriptions (this s') = spread (this_subscriptions (this s)).
Proof.
  unfold loadSubscriptions, restart. run. rewrite lookup_insert_eq.
  pose proof (parse_subscriptions (this_subscriptions (this s))) as Hparse.
  destruct (JSON.parse _) as [j|]; [|done]. simpl in Hparse. rewrite Hparse.
  eexists. by repeat split.
Qed.

(** C6: a second [loadOrCreateKeys] on the same data directory, in the
    same process or after a restart (with whatever subject), returns
    what the first returned and does nothing else: it reads the file,
    it does not generate. *)
Theorem loadOrCreateKeys_idempotent (s : System) (subj : string) :
  let k1 := (loadOrCreateKeys s).1 in
  let s1 := (loadOrCreateKeys s).2 in
  loadOrCreateKeys s1 = (k1, s1)
  ∧ loadOrCreateKeys (restart subj s1) = (k1, restart subj s1).
Proof.
  unfold restart. run.
  destruct (files s !! path_join (this_dataDir (this s)) "vapid.json" ≫= JSON.parse)
    as [j|] eqn:E.
  - simpl. by rewrite E.
  - destruct (generateVAPIDKeys (outside s)) as [[pk sk] w]. simpl.
    rewrite lookup_insert_eq. simpl.
    by rewrite (parse_VapidKeys {| publicKey := pk; privateKey := sk;
                                   subject := this_subject (this s) |}).
Qed.

(** C8: with the subscription file missing, or holding something that is
    not JSON, [loadSubscriptions] neither fails nor touches anything but
    the map, which is empty afterwards and works as any other: it lists
    nothing, a broadcast reports no attempt, and a subscription is
    accepted. *)
Theorem loadSubscriptions_defaults (s : System) :
  let file := path_join (this_dataDir (this s)) "subscriptions.json" in
  files s !! file = None
  ∨ (∃ content, files s !! file = Some content ∧ JSON.parse content = None) →
  ∃ s', loadSubscriptions s = LoadedStore s'
        ∧ this_subscriptions (this s') = empty_object
        ∧ files s' = files s ∧ trace s' = trace s ∧ outside s' = outside s
        ∧ (getSubscriptions s').1 = empty_object
        ∧ (∀ title body url,
             (push title body url s').1 = {| success := 0; failed := 0 |})
        ∧ (∀ id sub name, id ≠ "__proto__" →
             is_Some (own (getSubscriptions (subscribe id sub name s').2).1 !! id)).
Proof.
  intros file Hfile.
  assert (loadSubscriptions s = LoadedStore (set_subscriptions empty_object s).2) as ->.
  { unfold loadSubscriptions, subFile, readFile. simpl. fold file.
    by destruct Hfile as [->|(content & -> & ->)]. }
  eexists. split; [done|]. repeat split.
  - intros title body url. rewrite push_unfold.
    unfold Object_keys, empty_object. cbn. rewrite map_to_list_empty. cbn.
    pose proof (settle_order_perm (outside s) _ (@nil (string * SendResult))) as Hp.
    apply Permutation_nil_r in Hp. by rewrite Hp.
  - intros id sub name Hne. rewrite subscribe_then_list by done. by eexists.
Qed.

End Vapush_facts.

(** ** The secret check *)

Section Server_facts.
Context `{Collaborators}.
Import JSON.

Lemma checkSecret_exact (secret : string) (provided : option json) :
  checkSecret secret provided = true ↔ provided = Some (JStr secret).
Proof.
  unfold checkSecret. destruct provided as [[]|]; try (split; [done | congruence]).
  rewrite String.eqb_eq. split; [by intros -> | congruence].
Qed.

Lemma perform_status (r : Route) (parsed : json) (s s' : System) (resp : Response) :
  perform r parsed s = Responded resp s' → status resp = 200%Z.
Proof.
  unfold perform. destruct r; repeat case_match; try done; by intros [= <- _].
Qed.

(** Past the check no answer is a 401. *)
Lemma admitted_status (r : Route) (req : Request) (s s' : System) (resp : Response) :
  admitted r req s = Responded resp s' → status resp ≠ 401%Z.
Proof.
  unfold admitted.
  assert (∀ parsed, perform r parsed s = Responded resp s' → status resp ≠ 401%Z) as Hp.
  { intros parsed Hr. by rewrite (perform_status _ _ _ _ _ Hr). }
  destruct r; try apply Hp;
    (destruct (JSON.parse (body req)) as [[]|]; try apply Hp; by intros [= <- _]).
Qed.

(** C7: a request to one of the four operations is let through exactly
    when the value it offers is the stored secret, character for
    character; with any other value the answer is the 401 response and
    nothing has happened: no map change, no file written, no push sent. *)
Theorem secret_check_exact (secret : string) (req : Request) (s : System)
    (provided : option json) :
  supplied req = Some provided →
  (checkSecret secret provided = true ↔ provided = Some (JStr secret))
  ∧ status unauthorized = 401%Z
  ∧ (provided ≠ Some (JStr secret) → handle secret req s = Responded unauthorized s)
  ∧ (provided = Some (JStr secret) →
     ∃ r, route req = Protected r
          ∧ handle secret req s = admitted r req s
          ∧ ∀ resp s', handle secret req s = Responded resp s' → status resp ≠ 401%Z).
Proof.
  intros Hsup. split; [apply checkSecret_exact|]. split; [done|].
  unfold supplied, handle in *.
  destruct (route req) as [| |r|]; try done.
  assert (protected secret r req s
          = if checkSecret secret provided then admitted r req s
            else Responded unauthorized s) as Hcheck.
  { unfold protected, admitted. destruct r.
    - destruct (JSON.parse (body req)) as [[]|]; simplify_eq/=; try done;
        by destruct (checkSecret secret _).
    - destruct (JSON.parse (body req)) as [[]|]; simplify_eq/=; try done;
        by destruct (checkSecret secret _).
    - simplify_eq/=. by destruct (String.eqb _ _).
    - simplify_eq/=. by destruct (String.eqb _ _). }
  rewrite Hcheck. split.
  - intros Hne. destruct (checkSecret secret provided) eqn:E; [|done].
    by apply checkSecret_exact in E.
  - intros Heq. apply checkSecret_exact in Heq. rewrite Heq.
    exists r. repeat split. intros resp s'. apply admitted_status.
Qed.

End Server_facts.

(** ** What [getSubscriptions] shares with the store *)

Module Aliasing_facts.
Import Aliasing.

Lemma fresh_unallocated (st : Store) : heap st !! (getSubscriptions st).1 = None.
Proof. apply not_elem_of_dom, is_fresh. Qed.

Lemma record_at_insert_table (h : gmap nat Object) (a r : address)
    (props : gmap string address) :
  record_at h a = None → record_at (<[a := Table props]> h) r = record_at h r.
Proof.
  intros Ha. unfold record_at in *. destruct (decide (r = a)) as [->|Hne].
  - rewrite lookup_insert_eq. by destruct (h !! a) as [[]|].
  - by rewrite lookup_insert_ne.
Qed.

Lemma contents_insert_table (h : gmap nat Object) (a b : address)
    (props : gmap string address) :
  record_at h a = None → a ≠ b →
  contents (<[a := Table props]> h) b = contents h b.
Proof.
  intros Ha Hne. unfold contents, props_at. rewrite lookup_insert_ne by done.
  apply map_eq. intros k. rewrite !lookup_omap.
  destruct (_ !! k) as [r|]; [simpl|done]. by apply record_at_insert_table.
Qed.

(** The returned object is a new one and denotes the same map. *)
Lemma getSubscriptions_snapshot (st : Store) :
  allocated st →
  (getSubscriptions st).1 ≠ this_subscriptions st
  ∧ (getSubscriptions st).2.(this_subscriptions) = this_subscriptions st
  ∧ contents (heap (getSubscriptions st).2) (getSubscriptions st).1
    = contents (heap st) (this_subscriptions st)
  ∧ contents (heap (getSubscriptions st).2) (this_subscriptions st)
    = contents (heap st) (this_subscriptions st).
Proof.
  intros [o Ho]. pose proof (fresh_unallocated st) as Hfresh.
  assert ((getSubscriptions st).1 ≠ this_subscriptions st) as Hne.
  { intros E. rewrite E in Hfresh. by rewrite Ho in Hfresh. }
  assert (record_at (heap st) (getSubscriptions st).1 = None) as Hrec.
  { unfold record_at. by rewrite Hfresh. }
  repeat split; try done.
  - unfold contents at 1, props_at at 1. simpl. rewrite lookup_insert_eq.
    apply map_eq. intros k. unfold contents. rewrite !lookup_omap.
    destruct (_ !! k) as [r|]; [simpl|done]. by apply record_at_insert_table.
  - by apply contents_insert_table.
Qed.

(** C5 as amended: adding, replacing or deleting entries of the object
    [getSubscriptions] returned leaves the map of the store as it was. *)
Theorem top_level_mutation_is_private (st : Store) (m : Mutation) :
  allocated st → top_level m = true →
  let returned := (getSubscriptions st).1 in
  let st' := (getSubscriptions st).2 in
  returned ≠ this_subscriptions st
  ∧ contents (heap st') returned = contents (heap st) (this_subscriptions st)
  ∧ contents (mutate returned m (heap st')) (this_subscriptions st')
    = contents (heap st) (this_subscriptions st).
Proof.
  intros Hal Hm returned st'.
  destruct (getSubscriptions_snapshot st Hal) as (Hne & Hthis & Hsnap & Hsame).
  split; [done|]. split; [done|]. subst returned st'. rewrite Hthis, <- Hsame.
  assert (record_at (heap (getSubscriptions st).2) (getSubscriptions st).1 = None) as Hrec.
  { unfold record_at. simpl. by rewrite lookup_insert_eq. }
  destruct m; try done; simpl mutate; by apply contents_insert_table.
Qed.

End Aliasing_facts.

Section Agreement.
Context `{Collaborators}.

(** The heap model and the value model of [getSubscriptions] agree on
    what the returned object denotes. *)
Lemma getSubscriptions_agrees (st : Aliasing.Store) (s : System) :
  Aliasing.allocated st →
  store s = Aliasing.contents (Aliasing.heap st) (Aliasing.this_subscriptions st) →
  own (getSubscriptions s).1
  = Aliasing.contents (Aliasing.heap (Aliasing.getSubscriptions st).2)
      (Aliasing.getSubscriptions st).1.
Proof.
  intros Hal Hs.
  destruct (Aliasing_facts.getSubscriptions_snapshot st Hal) as (_ & _ & -> & _).
  exact Hs.
Qed.

End Agreement.

(** ** Concrete runs *)

Section Runs.
Import JSON.
#[local] Existing Instance scripted.

Example push_three :
  (push "Alert" "Server rebooted" None (scenario three_subscribers ∅)).1
  = {| success := 1; failed := 2 |}.
Proof. vm_compute. reflexivity. Qed.

Example push_three_store :
  dom (store (push "Alert" "Server rebooted" None (scenario three_subscribers ∅)).2)
  = {[ "phone"; "laptop" ]}.
Proof. vm_compute. reflexivity. Qed.

Example push_payload :
  payload_of "Alert" "Server rebooted" (Some "https://example.org/x")
  = "{" +:+ quote "title" +:+ ":" +:+ quote "Alert" +:+ ","
    +:+ quote "body" +:+ ":" +:+ quote "Server rebooted" +:+ ","
    +:+ quote "url" +:+ ":" +:+ quote "https://example.org/x" +:+ "}".
Proof. vm_compute. reflexivity. Qed.

Example unsubscribe_toString :
  (unsubscribe "toString" (scenario three_subscribers ∅)).1 = true.
Proof. vm_compute. reflexivity. Qed.

Example unsubscribe_nobody :
  unsubscribe "nobody" (scenario three_subscribers ∅)
  = (false, scenario three_subscribers ∅).
Proof. vm_compute. reflexivity. Qed.

(** The id of an inherited property, through the HTTP interface. *)
Example unsubscribe_constructor_http :
  ∃ s', handle "Zm9vYmFyYmF6cXV4MTIzNA"
          {| method := "POST"; pathname := "/api/unsubscribe";
             body := stringify (JObj [ ("id", JStr "constructor");
                                       ("secret", JStr "Zm9vYmFyYmF6cXV4MTIzNA") ]) |}
          (scenario three_subscribers ∅)
        = Responded
            (json_response 200 (JObj [ ("ok", JBool true); ("removed", JBool true) ])) s'
        ∧ store s' = store (scenario three_subscribers ∅).
Proof. eexists. split; [vm_compute; reflexivity|]. vm_compute. reflexivity. Qed.

(** The layout of [JSON.stringify(value, null, 2)]. *)
Example stringify_pretty_layout :
  stringify_pretty (JObj [ ("a", JArr [ JNull; JBool true ]); ("b", JObj []) ])
  = "{" +:+ String LF ("  " +:+ quote "a" +:+ ": [" +:+ String LF ("    null,"
    +:+ String LF ("    true" +:+ String LF ("  ]," +:+ String LF ("  " +:+ quote "b"
    +:+ ": {}" +:+ String LF "}"))))).
Proof. vm_compute. reflexivity. Qed.

Example parse_rejects :
  parse "[1,]" = None ∧ parse "{" = None ∧ parse "01" = None
  ∧ parse EmptyString = None ∧ parse "nul" = None ∧ parse "[1] x" = None.
Proof. vm_compute. by repeat split. Qed.

Example parse_accepts :
  parse " [ -1.5e+3 , true , null , [ ] , { } ] "
  = Some (JArr [ JNum "-1.5e+3"; JBool true; JNull; JArr []; JObj [] ]).
Proof. vm_compute. reflexivity. Qed.

End Runs.

(** ** The statements at concrete inputs *)

Section Witnesses.
Import JSON.

Lemma subscribe_frame_witness :
  "phone" ≠ "tablet"
  ∧ store (@subscribe scripted "phone" new_phone None (scenario three_subscribers ∅)).2
      !! "tablet"
    = store (scenario three_subscribers ∅) !! "tablet".
Proof.
  split; [discriminate|].
  apply (@subscribe_frame scripted (scenario three_subscribers ∅) "phone" "tablet").
  discriminate.
Defined.

Lemma loadSubscriptions_defaults_witness :
  (∃ content,
     torn_files !! "/srv/.vapush/subscriptions.json" = Some content
     ∧ JSON.parse content = None)
  ∧ ∃ s', @loadSubscriptions scripted (scenario three_subscribers torn_files)
          = LoadedStore s'
          ∧ this_subscriptions (this s') = empty_object.
Proof.
  assert (∃ content,
            torn_files !! "/srv/.vapush/subscriptions.json" = Some content
            ∧ JSON.parse content = None) as Htorn.
  { eexists. split; [reflexivity | vm_compute; reflexivity]. }
  split; [exact Htorn|].
  destruct (@loadSubscriptions_defaults scripted (scenario three_subscribers torn_files)
              (or_intror Htorn)) as (s' & Hload & Hempty & _).
  exists s'. split; assumption.
Defined.

Lemma secret_check_exact_witness :
  supplied wrong_secret_push = Some (Some (JStr "letmein"))
  ∧ @handle scripted "Zm9vYmFyYmF6cXV4MTIzNA" wrong_secret_push (scenario three_subscribers ∅)
    = Responded unauthorized (scenario three_subscribers ∅).
Proof.
  assert (supplied wrong_secret_push = Some (Some (JStr "letmein"))) as Hsup
    by (vm_compute; reflexivity).
  split; [exact Hsup|].
  destruct (@secret_check_exact scripted "Zm9vYmFyYmF6cXV4MTIzNA" wrong_secret_push
              (scenario three_subscribers ∅) _ Hsup) as (_ & _ & Hreject & _).
  apply Hreject. discriminate.
Defined.

End Witnesses.

Module Aliasing_witnesses.
Import Aliasing Aliasing_scenario.

Lemma one_entry_allocated : allocated one_entry.
Proof. eexists. vm_compute. reflexivity. Defined.

Lemma top_level_mutation_is_private_witness :
  allocated one_entry
  ∧ top_level (Delete "phone") = true
  ∧ contents (mutate (getSubscriptions one_entry).1 (Delete "phone")
                (heap (getSubscriptions one_entry).2))
      (this_subscriptions (getSubscriptions one_entry).2)
    = contents (heap one_entry) (this_subscriptions one_entry).
Proof.
  split; [exact one_entry_allocated|]. split; [reflexivity|].
  apply (Aliasing_facts.top_level_mutation_is_private one_entry (Delete "phone") one_entry_allocated
           eq_refl).
Defined.

(** C5 as stated fails: renaming a subscriber through the object that
    [getSubscriptions] returned renames it in the store, because the
    copy holds the very records the store holds. *)
Lemma nested_write_reaches_store :
  allocated one_entry
  ∧ contents (mutate (getSubscriptions one_entry).1 (AssignName "phone" (Some "Stolen"))
                (heap (getSubscriptions one_entry).2))
      (this_subscriptions (getSubscriptions one_entry).2)
    ≠ contents (heap one_entry) (this_subscriptions one_entry).
Proof.
  split; [exact one_entry_allocated|].
  intros E. apply (f_equal (λ m, name <$> m !! "phone")) in E.
  vm_compute in E. discriminate E.
Qed.

End Aliasing_witnesses.

(** ** Further properties of the store *)

Section Store_properties.
Context `{Collaborators}.
Import JSON.

Ltac run :=
  unfold store, subscribe, unsubscribe, getSubscriptions, pushTo, push, saveSubscriptions,
    loadOrCreateKeys, send, bind, ret, subscriptions, set_subscriptions, emit,
    ask, readFile, writeFile, subFile, keyFile, holding; simpl.

Lemma loadSubscriptions_persisted (s : System) :
  loadSubscriptions s
  = match persisted s with
    | Some o => LoadedStore (set_subscriptions o s).2
    | None =>
        match files s !! path_join (this_dataDir (this s)) "subscriptions.json"
              ≫= JSON.parse with
        | Some j => LoadedUntyped j
        | None => LoadedStore (set_subscriptions empty_object s).2
        end
    end.
Proof.
  unfold loadSubscriptions, persisted, on_disk, subFile, readFile. simpl.
  destruct (files s !! _) as [content|]; simpl; [|done].
  destruct (JSON.parse content) as [j|]; simpl; [|done].
  by destruct (as_subscriptions j).
Qed.

Lemma durable_persisted (s : System) :
  durable s ↔ own <$> persisted s = Some (store s).
Proof.
  unfold durable. rewrite loadSubscriptions_persisted.
  change (persisted (restart (this_subject (this s)) s)) with (persisted s).
  destruct (persisted s) as [o|] eqn:E; simpl.
  - split.
    + intros (s' & [= <-] & Hs). by rewrite <- Hs.
    + intros [= Ho]. eexists. split; [done|]. exact Ho.
  - split; [|done]. intros (s' & Hl & _). unfold persisted, on_disk in E. simpl in Hl.
    destruct (files s !! _) as [content|]; [|done]. simpl in *.
    by destruct (JSON.parse content).
Qed.

Lemma persisted_written (s : System) (o : JsObject) :
  files s !! path_join (this_dataDir (this s)) "subscriptions.json"
  = Some (stringify_pretty (subscriptions_to_json o)) →
  persisted s = Some (spread o).
Proof.
  intros E. unfold persisted, on_disk. rewrite E.
  pose proof (parse_subscriptions o) as Hp.
  destruct (JSON.parse _) as [j|]; [exact Hp | done].
Qed.

Lemma durable_after_save (s : System) : durable (saveSubscriptions s).2.
Proof.
  apply durable_persisted. rewrite (persisted_written _ (this_subscriptions (this s))).
  - done.
  - run. by rewrite lookup_insert_eq.
Qed.

(** A state that differs only in what the collaborators and the trace
    hold is as durable as the one it came from. *)
Lemma durable_same_store (s s' : System) :
  this s' = this s → files s' = files s → durable s → durable s'.
Proof.
  intros Hthis Hfiles. rewrite !durable_persisted. unfold persisted, on_disk, store.
  by rewrite Hthis, Hfiles.
Qed.

Lemma set_same_subscriptions (s : System) :
  (set_subscriptions (this_subscriptions (this s)) s).2 = s.
Proof. by destruct s as [[]]. Qed.

Lemma since_one (s s' : System) (e : Event) :
  trace s' = e :: trace s → since s s' = [e].
Proof. intros E. by apply (since_app _ _ [e]). Qed.

Lemma since_two (s s' : System) (e1 e2 : Event) :
  trace s' = e1 :: e2 :: trace s → since s s' = [e1; e2].
Proof. intros E. by apply (since_app _ _ [e1; e2]). Qed.

Lemma pushTo_unfold (id title body : string) (url : option string) (s : System) :
  pushTo id title body url s
  = let stored := get (this_subscriptions (this s)) id in
    let payload := payload_of title body url in
    if negb (truthy stored) then (false, s)
    else
      let answer := sendNotification (subscription_of stored) payload (outside s) in
      let s1 := after_send s (subscription_of stored) payload answer.2 in
      match answer.1 with
      | Delivered => (true, s1)
      | Rejected statusCode =>
          if gone statusCode
          then (false, (saveSubscriptions
                          (set_subscriptions (remove (this_subscriptions (this s)) id) s1).2).2)
          else (false, s1)
      end.
Proof.
  unfold pushTo, bind, subscriptions. simpl.
  destruct (negb _); [done|]. unfold send, bind, emit, ask, after_send. simpl.
  destruct (sendNotification _ _ _) as [[|code] w]; simpl; [done|].
  by destruct (gone code).
Qed.

Lemma subscribe_durable (s : System) (id : string) (sub : Subscription)
    (name : option string) :
  durable (subscribe id sub name s).2.
Proof.
  unfold subscribe, bind, subscriptions. simpl.
  destruct (ask toISOString s) as [now s1]. simpl.
  apply (durable_after_save (set_subscriptions _ s1).2).
Qed.

Lemma unsubscribe_durable (s : System) (id : string) :
  durable s → durable (unsubscribe id s).2.
Proof.
  intros Hd. unfold unsubscribe, bind, subscriptions. simpl.
  destruct (negb _); [done|]. simpl.
  apply (durable_after_save (set_subscriptions _ s).2).
Qed.

Lemma push_durable (s : System) (title body : string) (url : option string) :
  durable s → durable (push title body url s).2.
Proof.
  intros Hd. rewrite push_unfold. cbv zeta.
  destruct (send_each_spec (payload_of title body url)
              (Object_keys (this_subscriptions (this s))) s)
    as (events & Hthis & Hfiles & _).
  destruct (send_each _ _ s) as [issued s1]. simpl in Hthis, Hfiles |- *.
  destruct (filter _ (settle_order (outside s1) _ issued)).*1 as [|x l] eqn:E.
  - cbn [foldl length Nat.ltb Nat.leb snd].
    apply (durable_same_store s); [|done|done]. simpl.
    rewrite <- Hthis. by destruct (this s1).
  - cbn [length Nat.ltb Nat.leb snd].
    apply (durable_after_save (set_subscriptions _ s1).2).
Qed.


Lemma touched_refl (s : System) : only_subscriptions_touched s s.
Proof. by repeat split. Qed.

Ltac touched :=
  unfold only_subscriptions_touched; run; repeat split; try done;
  let p := fresh "p" in let Hp := fresh "Hp" in
  intros p Hp; by rewrite lookup_insert_ne.

Lemma subscribe_touched (s : System) (id : string) (sub : Subscription)
    (name : option string) :
  only_subscriptions_touched s (subscribe id sub name s).2.
Proof. run. destruct (toISOString (outside s)) as [now w]. touched. Qed.

Lemma unsubscribe_touched (s : System) (id : string) :
  only_subscriptions_touched s (unsubscribe id s).2.
Proof. run. destruct (negb _); touched. Qed.

Lemma push_touched (s : System) (title body : string) (url : option string) :
  only_subscriptions_touched s (push title body url s).2.
Proof.
  rewrite push_unfold. cbv zeta.
  destruct (send_each_spec (payload_of title body url)
              (Object_keys (this_subscriptions (this s))) s)
    as (events & Hthis & Hfiles & _).
  destruct (send_each _ _ s) as [issued s1]. simpl in Hthis, Hfiles |- *.
  destruct (Nat.ltb 0 _); cbn [snd]; unfold only_subscriptions_touched; run;
    rewrite Hthis, Hfiles; repeat split; try done.
  intros p Hp. by rewrite lookup_insert_ne.
Qed.

Lemma pushTo_touched (s : System) (id title body : string) (url : option string) :
  only_subscriptions_touched s (pushTo id title body url s).2.
Proof.
  rewrite pushTo_unfold. cbv zeta.
  destruct (negb _); [apply touched_refl|].
  destruct (sendNotification _ _ _) as [[|code] w]; cbn [fst snd]; [touched|].
  destruct (gone code); touched.
Qed.


(** No method changes the directory, the subject or the keys of the
    instance, and none writes a file other than [subscriptions.json]:
    the key file and whatever else lies in the data directory stay as
    they are, and [getPublicKey] keeps its answer. *)
Theorem methods_touch_only_subscriptions (s : System) (id : string)
    (sub : Subscription) (name : option string) (title body : string)
    (url : option string) :
  let unchanged (s' : System) :=
    only_subscriptions_touched s s' ∧ getPublicKey s' = getPublicKey s in
  unchanged (subscribe id sub name s).2
  ∧ unchanged (unsubscribe id s).2
  ∧ unchanged (getSubscriptions s).2
  ∧ unchanged (push title body url s).2
  ∧ unchanged (pushTo id title body url s).2.
Proof.
  assert (∀ s', only_subscriptions_touched s s' →
                only_subscriptions_touched s s' ∧ getPublicKey s' = getPublicKey s) as Hk.
  { intros s' Ht. split; [done|]. destruct Ht as (_ & _ & Hkeys & _).
    unfold getPublicKey. by rewrite Hkeys. }
  cbv zeta.
  auto 10 using subscribe_touched, unsubscribe_touched, push_touched, pushTo_touched,
    touched_refl.
Qed.

(** [pushTo] on a known id calls the push library once, with the stored
    descriptor and the payload, and returns whether that call
    succeeded. *)
Theorem pushTo_delivers (s : System) (id title body : string) (url : option string)
    (r : StoredSubscription) :
  store s !! id = Some r →
  let payload := payload_of title body url in
  let answer := sendNotification (Some (subscription r)) payload (outside s) in
  let s' := (pushTo id title body url s).2 in
  (pushTo id title body url s).1 = delivered (id, answer.1)
  ∧ filter (λ e, is_send e = true) (since s s')
    = [SendNotification (Some (subscription r)) payload]
  ∧ outside s' = answer.2.
Proof.
  intros Hr. cbv zeta. rewrite pushTo_unfold. cbv zeta.
  rewrite (get_own _ _ _ Hr). cbn [truthy negb subscription_of].
  destruct (sendNotification _ _ _) as [[|code] w]; cbn [fst snd delivered].
  - by erewrite since_one by reflexivity.
  - destruct (gone code).
    + by erewrite since_two by reflexivity.
    + by erewrite since_one by reflexivity.
Qed.

(** [pushTo] on an id of the map: when the push library rejects the
    call with status 404 or 410 the subscriber is removed and the file
    rewritten once; when it delivers, or rejects with another status or
    with none, neither the instance nor the files change. *)
Theorem pushTo_prunes (s : System) (id title body : string) (url : option string)
    (r : StoredSubscription) :
  store s !! id = Some r →
  let payload := payload_of title body url in
  let answer := (sendNotification (Some (subscription r)) payload (outside s)).1 in
  let s' := (pushTo id title body url s).2 in
  (answer = Rejected (Some 404%Z) ∨ answer = Rejected (Some 410%Z) →
     store s' = delete id (store s)
     ∧ writes (since s s') = 1
     ∧ files s'
       = <[path_join (this_dataDir (this s)) "subscriptions.json" :=
             stringify_pretty (subscriptions_to_json (this_subscriptions (this s')))]>
           (files s))
  ∧ (answer = Delivered
     ∨ (∃ status, answer = Rejected status
                  ∧ status ≠ Some 404%Z ∧ status ≠ Some 410%Z) →
     this s' = this s ∧ files s' = files s ∧ writes (since s s') = 0).
Proof.
  intros Hr. cbv zeta. rewrite pushTo_unfold. cbv zeta.
  rewrite (get_own _ _ _ Hr). cbn [truthy negb subscription_of].
  destruct (sendNotification _ _ _) as [[|status] w]; cbn [fst snd].
  - split; [by intros [|]|]. intros _. by erewrite since_one by reflexivity.
  - assert (gone status = true ↔ status = Some 404%Z ∨ status = Some 410%Z) as Hgone.
    { unfold gone. destruct status as [c|]; [|split; [done | by intros [|]]].
      rewrite orb_true_iff, !Z.eqb_eq. split.
      - intros [Hc | Hc]; rewrite Hc; [by left | by right].
      - intros [Hc | Hc]; injection Hc as Hc; [by left | by right]. }
    destruct (gone status) eqn:E.
    + split.
      * intros _. by erewrite since_two by reflexivity.
      * intros [[=]|(status' & [= <-] & H404 & H410)].
        destruct (proj1 Hgone eq_refl); contradiction.
    + split.
      * intros Hstatus. assert (false = true) as [=]. apply Hgone.
        destruct Hstatus as [[= ->]|[= ->]]; [by left | by right].
      * intros _. by erewrite since_one by reflexivity.
Qed.

(** [subscribe] under any id but ["__proto__"] inserts or replaces that
    one entry, stamped by the clock, and writes the whole map once. *)
Theorem subscribe_inserts (s : System) (id : string) (sub : Subscription)
    (name : option string) :
  id ≠ "__proto__" →
  let s' := (subscribe id sub name s).2 in
  store s'
  = <[id := {| subscription := sub; createdAt := (toISOString (outside s)).1;
               name := name |}]> (store s)
  ∧ proto (this_subscriptions (this s')) = proto (this_subscriptions (this s))
  ∧ since s s'
    = [WriteFile (path_join (this_dataDir (this s)) "subscriptions.json")
         (stringify_pretty (subscriptions_to_json (this_subscriptions (this s')))) None]
  ∧ files s'
    = <[path_join (this_dataDir (this s)) "subscriptions.json" :=
          stringify_pretty (subscriptions_to_json (this_subscriptions (this s')))]>
        (files s).
Proof.
  intros Hne. run. destruct (toISOString (outside s)) as [now w]. simpl.
  unfold set. destruct (String.eqb_spec id "__proto__"); [done|]. simpl.
  repeat split. by erewrite since_one by reflexivity.
Qed.

(** Subscribing and then unsubscribing the same id leaves the map as it
    was without that id; a map that did not hold the id is back to what
    it was. *)
Theorem subscribe_then_unsubscribe (s : System) (id : string) (sub : Subscription)
    (name : option string) :
  id ≠ "__proto__" →
  let s1 := (subscribe id sub name s).2 in
  (unsubscribe id s1).1 = true
  ∧ store (unsubscribe id s1).2 = delete id (store s)
  ∧ (store s !! id = None → store (unsubscribe id s1).2 = store s).
Proof.
  intros Hne. run. destruct (toISOString (outside s)) as [now w]. simpl.
  unfold set. destruct (String.eqb_spec id "__proto__"); [done|]. simpl.
  unfold get. simpl. rewrite lookup_insert_eq. simpl.
  rewrite delete_insert_eq. repeat split. intros Hnone. by apply delete_id.
Qed.

(** Once an id has been unsubscribed, unsubscribing it again returns
    [false] and does nothing (the id not being the name of an inherited
    property). *)
Theorem unsubscribe_twice (s : System) (id : string) :
  proto (this_subscriptions (this s)) = ObjectPrototype → inherited id = false →
  let s1 := (unsubscribe id s).2 in
  unsubscribe id s1 = (false, s1).
Proof.
  intros Hproto Hinh. cbv zeta. apply unsubscribe_absent; [| |done].
  - run. destruct (negb _) eqn:E; simpl.
    + unfold get in E. rewrite Hproto, Hinh in E.
      by destruct (own _ !! id).
    + apply lookup_delete_eq.
  - run. by destruct (negb _).
Qed.

(** With no subscriber [push] reports [{success: 0, failed: 0}] and does
    nothing at all. *)
Theorem push_empty (s : System) (title body : string) (url : option string) :
  store s = ∅ → push title body url s = ({| success := 0; failed := 0 |}, s).
Proof.
  unfold store. intros Hempty. rewrite push_unfold. unfold Object_keys.
  rewrite Hempty, map_to_list_empty. cbn [fmap list_fmap send_each ret].
  pose proof (settle_order_perm (outside s) _ (@nil (string * SendResult))) as Hp.
  apply Permutation_nil_r in Hp. cbv zeta. rewrite Hp. cbn.
  by destruct s as [[]].
Qed.

Lemma attempt_own (payload id : string) (s : System) (r : StoredSubscription) :
  store s !! id = Some r →
  this (attempt payload id s).2 = this s
  ∧ trace (attempt payload id s).2
    = SendNotification (Some (subscription r)) payload :: trace s.
Proof.
  intros Hr. unfold attempt, bind, subscriptions. simpl.
  rewrite (get_own _ _ _ Hr). unfold send, bind, emit, ask. simpl.
  by destruct (sendNotification _ _ _).
Qed.

Lemma send_each_addressed (payload : string) (l : list (string * StoredSubscription))
    (s : System) :
  Forall (λ kr, store s !! kr.1 = Some kr.2) l →
  trace (send_each payload l.*1 s).2
  = (reverse ((λ kr, SendNotification (Some (subscription kr.2)) payload) <$> l)
     ++ trace s)%list.
Proof.
  revert s. induction l as [|[k r] l IH]; intros s Hl; [done|].
  apply Forall_cons in Hl as [Hk Hl]. simpl in Hk.
  rewrite fmap_cons. cbn [fst]. rewrite send_each_cons.
  destruct (attempt_own payload k s r Hk) as [Hthis Htrace].
  destruct (attempt payload k s) as [a s1]. simpl in Hthis, Htrace.
  specialize (IH s1). destruct (send_each payload l.*1 s1) as [rs s2].
  cbn [fst snd] in *. rewrite IH.
  - rewrite Htrace, fmap_cons, reverse_cons, <- app_assoc. done.
  - eapply Forall_impl; [exact Hl|]. intros kr. unfold store. by rewrite Hthis.
Qed.

(** [push] calls the push library once for every subscriber, with that
    subscriber's stored descriptor and one and the same payload, and for
    nobody else. *)
Theorem push_addresses (s : System) (title body : string) (url : option string) :
  let s' := (push title body url s).2 in
  filter (λ e, is_send e = true) (since s s')
  = reverse ((λ kr, SendNotification (Some (subscription kr.2))
                      (payload_of title body url))
             <$> map_to_list (store s)).
Proof.
  cbv zeta. rewrite push_unfold. cbv zeta. unfold Object_keys.
  pose proof (send_each_addressed (payload_of title body url)
                (map_to_list (store s)) s) as Htrace.
  unfold store in Htrace at 2.
  destruct (send_each _ _ s) as [issued s1]. simpl in Htrace.
  assert (∀ l : list (string * StoredSubscription),
            filter (λ e, is_send e = true)
              ((λ kr, SendNotification (Some (subscription kr.2))
                        (payload_of title body url)) <$> l)
            = (λ kr, SendNotification (Some (subscription kr.2))
                       (payload_of title body url)) <$> l) as Hall.
  { induction l as [|kr l IHl]; [done|].
    rewrite fmap_cons, filter_cons. simpl. by rewrite IHl. }
  assert (Forall (λ kr, store s !! kr.1 = Some kr.2) (map_to_list (store s))) as Hown.
  { apply Forall_forall. intros [k r] Hkr. by apply elem_of_map_to_list in Hkr. }
  specialize (Htrace Hown).
  destruct (Nat.ltb 0 _); cbn [snd].
  - erewrite (since_app _ _ (_ :: reverse _)); [|run; by rewrite Htrace].
    rewrite filter_cons. simpl. rewrite <- fmap_reverse. apply Hall.
  - erewrite (since_app _ _ (reverse _)); [|run; exact Htrace].
    rewrite <- fmap_reverse. apply Hall.
Qed.

End Store_properties.

(** ** Start-up *)

Section Startup_properties.
Context `{Platform}.
Import JSON.

Lemma keyFile_ne_subFile (dir : string) :
  path_join dir "vapid.json" ≠ path_join dir "subscriptions.json".
Proof. unfold path_join. by intros E%(inj (append dir)). Qed.

Lemma loadOrCreateKeys_reads (s : System) (j : json) :
  files s !! path_join (this_dataDir (this s)) "vapid.json" ≫= JSON.parse = Some j →
  loadOrCreateKeys s = (j, s).
Proof.
  intros E. unfold loadOrCreateKeys, bind, keyFile, readFile. simpl. by rewrite E.
Qed.

(** [loadOrCreateKeys] touches nothing but the key file, and leaves a
    key file that parses to what it returned. *)
Lemma loadOrCreateKeys_effect (s : System) :
  this (loadOrCreateKeys s).2 = this s
  ∧ (∀ p, p ≠ path_join (this_dataDir (this s)) "vapid.json" →
          files (loadOrCreateKeys s).2 !! p = files s !! p)
  ∧ files (loadOrCreateKeys s).2 !! path_join (this_dataDir (this s)) "vapid.json"
    ≫= JSON.parse = Some (loadOrCreateKeys s).1.
Proof.
  unfold loadOrCreateKeys, bind, keyFile, readFile, ask, emit, writeFile, ret. simpl.
  destruct (files s !! _ ≫= JSON.parse) as [j|] eqn:E; simpl; [done|].
  destruct (generateVAPIDKeys (outside s)) as [[pk sk] w]. simpl.
  repeat split.
  - intros p Hp. by rewrite lookup_insert_ne.
  - rewrite lookup_insert_eq. simpl.
    apply (parse_VapidKeys {| publicKey := pk; privateKey := sk;
                              subject := this_subject (this s) |}).
Qed.

Lemma persisted_ext (s s' : System) :
  this_dataDir (this s') = this_dataDir (this s) →
  files s' !! path_join (this_dataDir (this s)) "subscriptions.json"
  = files s !! path_join (this_dataDir (this s)) "subscriptions.json" →
  persisted s' = persisted s.
Proof. unfold persisted, on_disk. by intros -> ->. Qed.

Lemma init_no_directory (s : System) :
  mkdir (this_dataDir (this s)) = false → init s = InitThrew s.
Proof. intros Hdir. unfold init. by rewrite Hdir. Qed.

(** [init] in terms of what the files hold. *)
Lemma init_unfold (s : System) :
  mkdir (this_dataDir (this s)) = true →
  init s
  = let k := (loadOrCreateKeys s).1 in
    let s2 := set_keys k (loadOrCreateKeys s).2 in
    match k with
    | JNull => InitThrew s2
    | _ =>
        if setVapidDetails (property k "subject") (property k "publicKey")
             (property k "privateKey")
        then
          match loadSubscriptions s2 with
          | LoadedStore s3 => InitDone s3
          | LoadedUntyped j => InitUntyped j s2
          end
        else InitThrew s2
    end.
Proof. intros Hdir. unfold init. rewrite Hdir. by destruct (loadOrCreateKeys s). Qed.

Lemma init_done (s s' : System) :
  init s = InitDone s' →
  let k := (loadOrCreateKeys s).1 in
  ∃ o, persisted (loadOrCreateKeys s).2 = Some o
       ∧ s' = (set_subscriptions o (set_keys k (loadOrCreateKeys s).2)).2
       ∧ k ≠ JNull
       ∧ setVapidDetails (property k "subject") (property k "publicKey")
           (property k "privateKey") = true
       ∧ mkdir (this_dataDir (this s)) = true.
Proof.
  destruct (mkdir (this_dataDir (this s))) eqn:Hdir;
    [|by rewrite init_no_directory].
  rewrite init_unfold by done. cbv zeta.
  set (k := (loadOrCreateKeys s).1). set (s1 := (loadOrCreateKeys s).2).
  assert (persisted (set_keys k s1) = persisted s1) as Hp by done.
  intros Hinit.
  assert (k ≠ JNull ∧ setVapidDetails (property k "subject") (property k "publicKey")
                        (property k "privateKey") = true
          ∧ ∃ s3, loadSubscriptions (set_keys k s1) = LoadedStore s3 ∧ s3 = s')
    as (Hk & Hacc & s3 & Hload & <-).
  { destruct k; try done;
      (destruct (setVapidDetails _ _ _); [|done]);
      (destruct (loadSubscriptions _) as [s3|]; [|done]);
      injection Hinit as <-; eauto. }
  rewrite loadSubscriptions_persisted, Hp in Hload.
  destruct (persisted s1) as [o|] eqn:Ho.
  - exists o. injection Hload as <-. by repeat split.
  - exfalso. unfold persisted, on_disk in Ho. simpl in Hload.
    destruct (files s1 !! _) as [content|]; [|done]. simpl in *.
    by destruct (JSON.parse content).
Qed.




(** A restart after a successful [init] is a successful [init] again,
    with the same keys, the same public key and the same subscriptions,
    and without generating or writing anything. *)
Theorem init_again (s s1 : System) (subj : string) :
  init s = InitDone s1 →
  ∃ s2, init (restart subj s1) = InitDone s2
        ∧ this_keys (this s2) = this_keys (this s1)
        ∧ getPublicKey s2 = getPublicKey s1
        ∧ this_subscriptions (this s2) = this_subscriptions (this s1)
        ∧ files s2 = files s1
        ∧ outside s2 = outside s1
        ∧ trace s2 = trace s1.
Proof.
  intros Hinit. destruct (init_done _ _ Hinit) as (o & Ho & -> & Hk & Hacc & Hmade).
  destruct (loadOrCreateKeys_effect s) as (Hthis & Hfiles & Hkey).
  set (k := (loadOrCreateKeys s).1) in *. set (sa := (loadOrCreateKeys s).2) in *.
  set (s1 := (set_subscriptions o (set_keys k sa)).2).
  assert (this_dataDir (this sa) = this_dataDir (this s)) as Hdir by by rewrite Hthis.
  rewrite init_unfold, (loadOrCreateKeys_reads (restart subj s1) k);
    [|simpl; by rewrite Hdir|simpl; by rewrite Hdir]. cbv zeta. cbn [fst snd].
  rewrite Hacc, loadSubscriptions_persisted.
  assert (persisted (set_keys k (restart subj s1)) = Some o) as ->.
  { rewrite <- Ho. apply persisted_ext; done. }
  exists (set_subscriptions o (set_keys k (restart subj s1))).2.
  split; [by destruct k|]. done.
Qed.

(** A key file that parses is never replaced, whatever it holds and
    whatever the subscription file holds: [init] then generates nothing
    and writes nothing, however it ends, and takes what the file holds
    as its keys once the directory is made. It is rejected (now and at
    every later start) when the directory cannot be made, when the file
    holds [null] and when the push library does not accept what it
    holds. *)
Theorem init_keeps_parsable_key_file (s : System) (k : json) :
  files s !! path_join (this_dataDir (this s)) "vapid.json" ≫= JSON.parse = Some k →
  files (left_by (init s)) = files s
  ∧ trace (left_by (init s)) = trace s
  ∧ outside (left_by (init s)) = outside s
  ∧ (mkdir (this_dataDir (this s)) = true →
     this_keys (this (left_by (init s))) = Some k)
  ∧ (mkdir (this_dataDir (this s)) = false → init s = InitThrew s)
  ∧ (mkdir (this_dataDir (this s)) = true →
     k = JNull
     ∨ setVapidDetails (property k "subject") (property k "publicKey")
         (property k "privateKey") = false →
     init s = InitThrew (set_keys k s)).
Proof.
  intros Hk. destruct (mkdir (this_dataDir (this s))) eqn:Hdir.
  - rewrite init_unfold, (loadOrCreateKeys_reads s k Hk) by done. cbv zeta. cbn [fst snd].
    assert (∀ i, (i = InitThrew (set_keys k s) ∨ ∃ j, i = InitUntyped j (set_keys k s))
                 ∨ (∃ o, i = InitDone (set_subscriptions o (set_keys k s)).2) →
                 files (left_by i) = files s ∧ trace (left_by i) = trace s
                 ∧ outside (left_by i) = outside s
                 ∧ (true = true → this_keys (this (left_by i)) = Some k)) as Hleft.
    { intros i [[->|[j ->]]|[o ->]]; by repeat split. }
    assert (match loadSubscriptions (set_keys k s) with
            | LoadedStore s3 => ∃ o, s3 = (set_subscriptions o (set_keys k s)).2
            | LoadedUntyped _ => True
            end) as Hload.
    { rewrite loadSubscriptions_persisted.
      destruct (persisted (set_keys k s)) as [o|]; [by exists o|].
      destruct (files (set_keys k s) !! _ ≫= JSON.parse); [done|]. by eexists. }
    split_and!; try done.
    1-4: apply Hleft;
      destruct k; try (left; left; reflexivity);
      (destruct (setVapidDetails _ _ _); [|left; left; reflexivity]);
      (destruct (loadSubscriptions _) as [s3|j];
       [destruct Hload as [o ->]; right; by exists o
       |left; right; by exists j]).
    intros _ [->|Hrej]; [done|]. rewrite Hrej. by destruct k.
  - rewrite init_no_directory by done. by repeat split.
Qed.

(** After a restart [init] brings back the subscriptions the previous
    process held, provided they had reached the disk. *)
Theorem init_restores (s s' : System) (subj : string) :
  durable s → init (restart subj s) = InitDone s' → store s' = store s.
Proof.
  intros Hd%durable_persisted Hinit.
  destruct (init_done _ _ Hinit) as (o & Ho & -> & _).
  destruct (loadOrCreateKeys_effect (restart subj s)) as (Hthis & Hfiles & _).
  rewrite (persisted_ext s) in Ho.
  - rewrite Ho in Hd. by injection Hd as <-.
  - by rewrite Hthis.
  - rewrite Hfiles; [done|]. apply not_eq_sym, keyFile_ne_subFile.
Qed.

End Startup_properties.

(** ** [trim] *)

Section Trim_facts.
#[local] Arguments append !_ _ : simpl nomatch.
#[local] Open Scope nat_scope.

Lemma white_space_shorter (s r : string) :
  white_space s = Some r → String.length r < String.length s.
Proof.
  unfold white_space. destruct s as [|c [|d [|e r']]]; simpl;
    repeat case_match; intros [= <-]; simpl; lia.
Qed.

Lemma white_space_app (s r w : string) :
  white_space s = Some r → white_space (s +:+ w) = Some (r +:+ w).
Proof.
  unfold white_space. destruct s as [|c [|d [|e r']]]; simpl;
    repeat case_match; intros [= <-]; simplify_eq/=; try done.
Qed.

Lemma trimStart_at_fuel (n m : nat) (s : string) :
  String.length s ≤ n → String.length s ≤ m → trimStart_at n s = trimStart_at m s.
Proof.
  revert m s. induction n as [|n IH]; intros m s Hn Hm.
  - destruct s; [|simpl in Hn; lia]. by destruct m.
  - destruct m as [|m].
    + destruct s; [done|simpl in Hm; lia].
    + simpl. destruct (white_space s) as [r|] eqn:Hr; [|done].
      apply white_space_shorter in Hr. apply IH; lia.
Qed.

Lemma trimStart_step (s r : string) :
  white_space s = Some r → trimStart s = trimStart r.
Proof.
  intros Hr. unfold trimStart. pose proof (white_space_shorter _ _ Hr) as Hlt.
  destruct (String.length s) as [|n] eqn:Hn; [lia|].
  simpl. rewrite Hr. apply trimStart_at_fuel; lia.
Qed.

Lemma trimStart_fixed (s : string) : white_space s = None → trimStart s = s.
Proof.
  intros Hs. unfold trimStart. destruct (String.length s); [done|]. simpl. by rewrite Hs.
Qed.

Lemma string_length_ind (P : string → Prop) :
  (∀ s, (∀ r, String.length r < String.length s → P r) → P s) → ∀ s, P s.
Proof. intros Hstep s. induction s as [s IH] using (Wf_nat.induction_ltof1 _ String.length).
       apply Hstep, IH. Qed.

Lemma white_space_trimStart (s : string) : white_space (trimStart s) = None.
Proof.
  induction s as [s IH] using string_length_ind.
  destruct (white_space s) as [r|] eqn:Hr.
  - rewrite (trimStart_step _ _ Hr). apply IH. by apply white_space_shorter.
  - by rewrite trimStart_fixed.
Qed.

Lemma trimStart_app_white (a w : string) :
  trimStart a = EmptyString → trimStart w = EmptyString →
  trimStart (a +:+ w) = EmptyString.
Proof.
  intros Ha Hw. induction a as [a IH] using string_length_ind.
  destruct (white_space a) as [r|] eqn:Hr.
  - rewrite (trimStart_step _ _ (white_space_app _ _ w Hr)).
    apply IH; [by apply white_space_shorter|]. by rewrite <- (trimStart_step _ _ Hr).
  - rewrite trimStart_fixed in Ha by done. by subst a.
Qed.

Lemma trimEnd_split (s : string) :
  ∃ w, s = trimEnd s +:+ w ∧ trimStart w = EmptyString.
Proof.
  induction s as [|c r (w & Hr & Hw)]; [by exists EmptyString|].
  cbn [trimEnd]. destruct (String.eqb_spec (trimStart (String c r)) EmptyString) as [E|E].
  - by exists (String c r).
  - exists w. split; [|done]. simpl. by rewrite <- Hr.
Qed.

Lemma trimEnd_idempotent (s : string) : trimEnd (trimEnd s) = trimEnd s.
Proof.
  induction s as [|c r IH]; [done|]. cbn [trimEnd].
  destruct (String.eqb_spec (trimStart (String c r)) EmptyString) as [E|E]; [done|].
  cbn [trimEnd].
  destruct (String.eqb_spec (trimStart (String c (trimEnd r))) EmptyString) as [E'|E'].
  - destruct E. destruct (trimEnd_split r) as (w & Hr & Hw).
    rewrite Hr. by apply (trimStart_app_white (String c (trimEnd r)) w).
  - by rewrite IH.
Qed.

Lemma white_space_trimEnd (s : string) :
  white_space s = None → white_space (trimEnd s) = None.
Proof.
  intros Hs. destruct (trimEnd_split s) as (w & Hsplit & _).
  destruct (white_space (trimEnd s)) as [q|] eqn:Hq; [|done].
  apply (white_space_app _ _ w) in Hq. rewrite <- Hsplit in Hq. congruence.
Qed.

(** Trimming what has been trimmed changes nothing. *)
Lemma trim_idempotent (s : string) : trim (trim s) = trim s.
Proof.
  unfold trim.
  rewrite (trimStart_fixed (trimEnd (trimStart s)))
    by apply white_space_trimEnd, white_space_trimStart.
  apply trimEnd_idempotent.
Qed.

Lemma white_space_base64url (c : ascii) (r : string) :
  is_base64url_char c = true → white_space (String c r) = None.
Proof.
  intros Hc.
  assert (is_ascii_space c = false) as H1.
  { apply not_true_iff_false. intros H. unfold is_base64url_char, is_ascii_space in *.
    rewrite ?andb_true_iff, ?orb_true_iff, ?andb_true_iff, ?N.leb_le, ?N.eqb_eq in *.
    lia. }
  assert (∀ d, is_space2 c d = false) as H2.
  { intros d. apply not_true_iff_false. intros H. unfold is_base64url_char, is_space2 in *.
    rewrite ?andb_true_iff, ?orb_true_iff, ?andb_true_iff, ?N.leb_le, ?N.eqb_eq in *.
    lia. }
  assert (∀ d e, is_space3 c d e = false) as H3.
  { intros d e. apply not_true_iff_false. intros H.
    unfold is_base64url_char, is_space3 in *.
    rewrite ?andb_true_iff, ?orb_true_iff, ?andb_true_iff, ?N.leb_le, ?N.eqb_eq in *.
    lia. }
  unfold white_space. rewrite H1. destruct r as [|d [|e r]]; [done| |].
  - by rewrite H2.
  - by rewrite H2, H3.
Qed.

Lemma trim_base64url (s : string) : all_base64url s = true → trim s = s.
Proof.
  intros Hs. unfold trim.
  assert (trimEnd s = s) as Hend.
  { induction s as [|c r IH]; [done|]. simpl in Hs. apply andb_prop in Hs as [Hc Hr].
    cbn [trimEnd]. rewrite (trimStart_fixed _ (white_space_base64url c r Hc)).
    simpl. by rewrite IH. }
  destruct s as [|c r]; [done|]. simpl in Hs. apply andb_prop in Hs as [Hc Hr].
  by rewrite (trimStart_fixed _ (white_space_base64url c r Hc)).
Qed.

End Trim_facts.

(** ** The server: start-up, secret and routes *)

Section Service_properties.
Context `{Platform}.
Import JSON.
#[local] Arguments append !_ _ : simpl nomatch.

Lemma secretFile_ne_keyFile (dir : string) :
  path_join dir "secret" ≠ path_join dir "vapid.json".
Proof. unfold path_join. by intros E%(inj (append dir)). Qed.

Lemma secretFile_ne_subFile (dir : string) :
  path_join dir "secret" ≠ path_join dir "subscriptions.json".
Proof. unfold path_join. by intros E%(inj (append dir)). Qed.

(** What a successful [init] leaves: the keys are what the key file
    holds, the library has accepted them, the subscriptions are those
    on disk, and no file but the key file has changed. *)
Lemma init_leaves (s s' : System) :
  init s = InitDone s' →
  ∃ k, this_keys (this s') = Some k
       ∧ files s' !! path_join (this_dataDir (this s)) "vapid.json" ≫= JSON.parse = Some k
       ∧ setVapidDetails (property k "subject") (property k "publicKey")
           (property k "privateKey") = true
       ∧ k ≠ JNull
       ∧ this_dataDir (this s') = this_dataDir (this s)
       ∧ this_subject (this s') = this_subject (this s)
       ∧ on_disk (this_dataDir (this s)) (files s) = Some (this_subscriptions (this s'))
       ∧ mkdir (this_dataDir (this s)) = true
       ∧ ∀ p, p ≠ path_join (this_dataDir (this s)) "vapid.json" →
              files s' !! p = files s !! p.
Proof.
  intros Hinit. destruct (init_done _ _ Hinit) as (o & Ho & -> & Hk & Hacc & Hmade).
  destruct (loadOrCreateKeys_effect s) as (Hthis & Hfiles & Hkey).
  exists (loadOrCreateKeys s).1. simpl. rewrite Hthis. repeat split; try done.
  unfold persisted in Ho. rewrite Hthis in Ho. rewrite <- Ho. unfold on_disk.
  rewrite Hfiles; [done|]. apply not_eq_sym, keyFile_ne_subFile.
Qed.

(** A start on files whose key file parses to keys the library accepts. *)
Lemma init_reads (s : System) (k : json) (o : JsObject) :
  mkdir (this_dataDir (this s)) = true →
  files s !! path_join (this_dataDir (this s)) "vapid.json" ≫= JSON.parse = Some k →
  k ≠ JNull →
  setVapidDetails (property k "subject") (property k "publicKey")
    (property k "privateKey") = true →
  persisted s = Some o →
  init s = InitDone (set_subscriptions o (set_keys k s)).2.
Proof.
  intros Hmade Hk Hnull Hacc Ho.
  rewrite init_unfold, (loadOrCreateKeys_reads s k Hk) by done. cbv zeta. cbn [fst snd].
  rewrite Hacc, loadSubscriptions_persisted.
  change (persisted (set_keys k s)) with (persisted s). rewrite Ho.
  by destruct k.
Qed.

Lemma createServer_listening (cwd : string) (options : ServerOptions)
    (fs : gmap string string) (w : world) (secret : string) (s : System) :
  createServer cwd options fs w = Listening secret s →
  let dir := default cwd (options_dataDir options) in
  ∃ s1, init {| this := construct cwd (Some dir) (options_subject options);
                files := fs; outside := w; trace := [] |} = InitDone s1
        ∧ load_or_create_secret dir (options_secret options) s1 = (Some secret, s).
Proof.
  unfold createServer. cbv zeta.
  destruct (init _) as [s1| |]; try done.
  destruct (load_or_create_secret _ _ s1) as [[secret'|] s'] eqn:E; [|done].
  intros [= <- <-]. by exists s1.
Qed.

(** The secret step: the instance is not touched, no file but the secret
    file changes, and the secret file then holds a text that trims to
    what the trimmed secret is. *)
Lemma load_or_create_secret_leaves (dir : string) (preset : option string)
    (s s' : System) (secret : string) :
  load_or_create_secret dir preset s = (Some secret, s') →
  this s' = this s
  ∧ (∀ p, p ≠ path_join dir "secret" → files s' !! p = files s !! p)
  ∧ (∃ text, files s' !! path_join dir "secret" = Some text ∧ trim text = trim secret)
  ∧ (is_Some (files s !! path_join dir "secret") ∨ preset = None → trim secret = secret).
Proof.
  unfold load_or_create_secret, readFile, writeFile, ask. cbn [fst snd].
  destruct (files s !! path_join dir "secret") as [text|] eqn:Hfile.
  - intros [= <- <-]. repeat split; try done.
    + exists text. by rewrite trim_idempotent.
    + intros _. apply trim_idempotent.
  - destruct (mkdir dir); cbn [negb]; [|by destruct preset, (randomBytes16 (outside s))].
    destruct preset as [x|].
    + intros [= <- <-]. simpl. repeat split.
      * intros p Hp. by rewrite lookup_insert_ne.
      * exists x. by rewrite lookup_insert_eq.
      * intros [[? [=]]|[=]].
    + pose proof (randomBytes16_base64url (outside s)) as Hrandom.
      destruct (randomBytes16 (outside s)) as [x w']. simpl in Hrandom.
      intros [= <- <-]. simpl. repeat split.
      * intros p Hp. by rewrite lookup_insert_ne.
      * exists x. by rewrite lookup_insert_eq.
      * intros _. apply trim_base64url.
        unfold base64url16 in Hrandom. by apply andb_prop in Hrandom as [_ ?].
Qed.

Lemma all_base64url_one_line (x : string) :
  all_base64url x = true → has_line_terminator x = false.
Proof.
  intros Hall. induction x as [|c r IH]; [done|].
  simpl in Hall. apply andb_prop in Hall as [Hc Hr].
  cbn [has_line_terminator]. rewrite (IH Hr), orb_false_r.
  unfold is_base64url_char, code in Hc.
  assert (Ascii.eqb c "010" = false) as ->.
  { apply Ascii.eqb_neq. intros ->. by vm_compute in Hc. }
  assert (Ascii.eqb c "013" = false) as ->.
  { apply Ascii.eqb_neq. intros ->. by vm_compute in Hc. }
  assert (Ascii.eqb c "226" = false) as Hc'.
  { apply Ascii.eqb_neq. intros ->. by vm_compute in Hc. }
  cbn [strip_prefix]. change (Ascii.eqb "226" c) with (Ascii.eqb "226"%char c).
  by rewrite Ascii.eqb_sym, Hc'.
Qed.



(** A later start on the same data directory, whatever has happened to
    the subscription file since and whatever [options.secret] now says:
    it reads the key file and the secret file, generates and writes
    nothing, holds the same keys, and its secret is the trimmed secret of
    the earlier start. That is the very same secret unless the earlier
    start was the first one and was given a secret with white space
    around it. *)
Theorem createServer_restart (cwd : string) (options later : ServerOptions)
    (fs fs' : gmap string string) (w w' : world) (secret : string) (s : System)
    (o : JsObject) :
  let dir := default cwd (options_dataDir options) in
  createServer cwd options fs w = Listening secret s →
  default cwd (options_dataDir later) = dir →
  fs' !! path_join dir "vapid.json" = files s !! path_join dir "vapid.json" →
  fs' !! path_join dir "secret" = files s !! path_join dir "secret" →
  on_disk dir fs' = Some o →
  ∃ s', createServer cwd later fs' w' = Listening (trim secret) s'
        ∧ this_keys (this s') = this_keys (this s)
        ∧ getPublicKey s' = getPublicKey s
        ∧ this_subscriptions (this s') = o
        ∧ files s' = fs'
        ∧ outside s' = w'
        ∧ trace s' = []
        ∧ (is_Some (fs !! path_join dir "secret") ∨ options_secret options = None →
           trim secret = secret).
Proof.
  intros dir Hstart Hdir Hkey Hsecret Ho.
  destruct (createServer_listening _ _ _ _ _ _ Hstart) as (s1 & Hinit & Hload).
  unfold createServer. cbv zeta. rewrite Hdir. clear Hstart.
  fold dir in Hinit, Hload. clearbody dir.
  destruct (init_leaves _ _ Hinit)
    as (k & Hkeys & Hfile & Hacc & Hnull & _ & _ & _ & Hmade & Hframe).
  destruct (load_or_create_secret_leaves _ _ _ _ _ Hload)
    as (Hthis & Hframe' & (text & Htext & Htrim) & Hfixed).
  cbn [this construct this_dataDir default from_option id files] in Hfile, Hframe, Hmade.
  rewrite (init_reads _ k o); cycle 1.
  { exact Hmade. }
  { cbn [this construct this_dataDir default from_option id files].
    rewrite Hkey, Hframe' by apply not_eq_sym, secretFile_ne_keyFile. exact Hfile. }
  { exact Hnull. }
  { exact Hacc. }
  { exact Ho. }
  unfold load_or_create_secret, readFile. cbn [fst snd files set_subscriptions set_keys].
  rewrite Hsecret, Htext, Htrim.
  eexists. split; [reflexivity|].
  unfold getPublicKey. rewrite Hthis, Hkeys. cbn [this this_keys].
  do 6 (split; [reflexivity|]).
  intros Hcase. apply Hfixed. destruct Hcase as [Hsome|Hnone]; [left|by right].
  rewrite Hframe; [exact Hsome|]. apply secretFile_ne_keyFile.
Qed.

Lemma bind_Some_eq {A B : Type} (f : A → option B) (x : A) : Some x ≫= f = f x.
Proof. reflexivity. Qed.

Lemma route_public_key (req : Request) :
  method req ≠ "OPTIONS" → pathname req = "/api/public-key" → route req = PublicKey.
Proof.
  intros Hmethod%String.eqb_neq Hpath. unfold route. by rewrite Hmethod, Hpath.
Qed.

Lemma getPublicKey_VapidKeys (s : System) (keys : VapidKeys) :
  this_keys (this s) = Some (VapidKeys_to_json keys) →
  getPublicKey s = KeyIs (Some (JStr (publicKey keys))).
Proof. intros Hk. unfold getPublicKey. by rewrite Hk. Qed.

Lemma parse_public_key_body (v : json) :
  no_num v →
  JSON.parse (stringify (public_key_body (Some v))) ≫= (λ j, property j "publicKey")
  = Some v.
Proof.
  intros Hv. unfold stringify. rewrite JSON_facts.parse_stringify_at by (by split).
  apply lookup_insert_eq.
Qed.

(** Once a key file written by [loadOrCreateKeys] is in place, the
    server answers every request for [/api/public-key] that is not a
    preflight, with any method and without any secret, with status 200
    and the public key of that file; it changes nothing. *)
Theorem public_key_served (cwd : string) (options : ServerOptions)
    (fs : gmap string string) (w : world) (secret : string) (s : System)
    (keys : VapidKeys) (req : Request) :
  createServer cwd options fs w = Listening secret s →
  files s !! path_join (default cwd (options_dataDir options)) "vapid.json"
  = Some (stringify_pretty (VapidKeys_to_json keys)) →
  method req ≠ "OPTIONS" →
  pathname req = "/api/public-key" →
  let resp := json_response 200 (public_key_body (Some (JStr (publicKey keys)))) in
  listener secret req s = Responded resp s
  ∧ JSON.parse (content resp) ≫= (λ j, property j "publicKey")
    = Some (JStr (publicKey keys)).
Proof.
  intros Hstart Hfile Hmethod Hpath resp.
  destruct (createServer_listening _ _ _ _ _ _ Hstart) as (s1 & Hinit & Hload).
  destruct (init_leaves _ _ Hinit) as (k & Hkeys & Hk & _).
  destruct (load_or_create_secret_leaves _ _ _ _ _ Hload) as (Hthis & Hframe & _).
  cbn [this construct this_dataDir default from_option id files] in Hk.
  rewrite <- Hframe, Hfile in Hk by apply not_eq_sym, secretFile_ne_keyFile.
  rewrite bind_Some_eq, parse_VapidKeys in Hk. injection Hk as <-.
  split; [|by apply parse_public_key_body].
  unfold listener. rewrite (route_public_key req Hmethod Hpath).
  by rewrite (getPublicKey_VapidKeys s keys) by by rewrite Hthis.
Qed.

(** *** Requests *)

Lemma perform_touched (r : Route) (parsed : json) (s s' : System) (resp : Response) :
  perform r parsed s = Responded resp s' →
  only_subscriptions_touched s s' ∧ (durable s → durable s').
Proof.
  unfold perform. destruct r.
  - repeat case_match; try done. intros [= _ <-].
    split; [apply subscribe_touched|]. intros _. apply subscribe_durable.
  - repeat case_match; try done. intros [= _ <-].
    match goal with E : unsubscribe ?id s = (_, ?x) |- _ =>
      replace x with (unsubscribe id s).2 by by rewrite E
    end.
    split; [apply unsubscribe_touched | apply unsubscribe_durable].
  - intros [= _ <-]. split; [apply touched_refl | done].
  - repeat case_match; try done. intros [= _ <-].
    match goal with E : push ?t ?b ?u s = (_, ?x) |- _ =>
      replace x with (push t b u s).2 by by rewrite E
    end.
    split; [apply push_touched | apply push_durable].
Qed.

Lemma listener_cases (secret : string) (req : Request) (s s' : System) (resp : Response) :
  listener secret req s = Responded resp s' →
  s' = s
  ∨ ∃ r parsed, supplied req = Some (Some (JStr secret))
                ∧ perform r parsed s = Responded resp s'.
Proof.
  unfold listener, handle, supplied.
  destruct (route req) as [| |r|]; try done.
  - intros [= _ <-]. by left.
  - destruct (getPublicKey s); try done. intros [= _ <-]. by left.
  - unfold protected, admitted. destruct r as [| |segment|segment].
    + destruct (JSON.parse (body req)) as [parsed|]; [|intros [= _ <-]; by left].
      destruct parsed as [| | | | |ms]; try (cbn; intros [= _ <-]; by left).
      destruct (checkSecret secret (property (JObj ms) "secret")) eqn:Hc.
      * apply checkSecret_exact in Hc. rewrite Hc. cbn [negb]. intros Hp. right. eauto.
      * cbn [negb]. intros [= _ <-]. by left.
    + destruct (JSON.parse (body req)) as [parsed|]; [|intros [= _ <-]; by left].
      destruct parsed as [| | | | |ms]; try (cbn; intros [= _ <-]; by left).
      destruct (checkSecret secret (property (JObj ms) "secret")) eqn:Hc.
      * apply checkSecret_exact in Hc. rewrite Hc. cbn [negb]. intros Hp. right. eauto.
      * cbn [negb]. intros [= _ <-]. by left.
    + destruct (checkSecret secret (Some (JStr segment))) eqn:Hc; cbn [negb];
        [|intros [= _ <-]; by left].
      apply checkSecret_exact in Hc. rewrite Hc. intros Hp. right. eauto.
    + destruct (checkSecret secret (Some (JStr segment))) eqn:Hc; cbn [negb];
        [|intros [= _ <-]; by left].
      apply checkSecret_exact in Hc. rewrite Hc.
      destruct (JSON.parse (body req)) as [parsed|]; [|intros [= _ <-]; by left].
      destruct parsed; try (intros [= _ <-]; by left); intros Hp; right; eauto.
Qed.

(** Whatever a request does, it does to the subscriptions: the
    directory, the subject and the keys of the instance and every file
    other than [subscriptions.json] are as before, and the file still
    holds the map that is in memory if it did before. *)
Theorem requests_touch_only_subscriptions (secret : string) (req : Request)
    (s s' : System) (resp : Response) :
  listener secret req s = Responded resp s' →
  only_subscriptions_touched s s' ∧ (durable s → durable s').
Proof.
  intros [->|(r & parsed & _ & Hp)]%listener_cases.
  - split; [apply touched_refl | done].
  - by apply perform_touched in Hp.
Qed.

(** A request that changes anything (the map, a file, the trace of
    effects, the state of the collaborators) has offered the secret. *)
Theorem state_change_needs_secret (secret : string) (req : Request)
    (s s' : System) (resp : Response) :
  listener secret req s = Responded resp s' →
  s' ≠ s →
  supplied req = Some (Some (JStr secret)).
Proof.
  intros [->|(r & parsed & Hs & _)]%listener_cases Hne; [done | exact Hs].
Qed.

Lemma capture_app (prefix rest : string) :
  rest ≠ EmptyString → has_line_terminator rest = false →
  capture prefix (prefix +:+ rest) = Some rest.
Proof.
  intros Hne Hlt. unfold capture.
  assert (strip_prefix prefix (prefix +:+ rest) = Some rest) as ->.
  { induction prefix as [|c p IH]; [done|]. simpl. by rewrite Ascii.eqb_refl. }
  apply String.eqb_neq in Hne. by rewrite Hne, Hlt.
Qed.

Lemma capture_plain (prefix pathname segment : string) :
  capture prefix pathname = Some segment →
  segment ≠ EmptyString ∧ has_line_terminator segment = false.
Proof.
  unfold capture. destruct (strip_prefix prefix pathname) as [rest|]; [|done].
  destruct (String.eqb_spec rest EmptyString) as [|Hne]; [done|]. simpl.
  destruct (has_line_terminator rest) eqn:Hlt; [done|]. by intros [= <-].
Qed.

Lemma route_subscriptions (secret body : string) :
  secret ≠ EmptyString → has_line_terminator secret = false →
  route {| method := "GET"; pathname := "/api/subscriptions/" +:+ secret; body := body |}
  = Protected (RouteSubscriptions secret).
Proof.
  intros Hne Hlt. unfold route. cbn [method pathname].
  rewrite (capture_app "/api/subscriptions/") by done. reflexivity.
Qed.

Lemma route_push (secret body : string) :
  secret ≠ EmptyString → has_line_terminator secret = false →
  route {| method := "POST"; pathname := "/api/push/" +:+ secret; body := body |}
  = Protected (RoutePush secret).
Proof.
  intros Hne Hlt. unfold route. cbn [method pathname].
  rewrite (capture_app "/api/push/") by done. reflexivity.
Qed.

Lemma all_plain_path_app (a b : string) :
  all_plain_path a = true → all_plain_path b = true → all_plain_path (a +:+ b) = true.
Proof.
  intros Ha Hb. induction a as [|c a IH]; [done|].
  simpl in Ha |- *. apply andb_prop in Ha as [Hc Ha]. by rewrite Hc, IH.
Qed.

Lemma all_base64url_plain_path (x : string) :
  all_base64url x = true → all_plain_path x = true.
Proof.
  induction x as [|c x IH]; [done|]. simpl. intros [Hc Hx]%andb_prop.
  unfold is_plain_path_char. by rewrite Hc, IH.
Qed.

(** A target made of one of the two path prefixes and a secret of
    base64url characters reaches the listener as it was sent. *)
Lemma incoming_with_secret (method prefix secret body : string) :
  prefix = "api/subscriptions/" ∨ prefix = "api/push/" →
  all_base64url secret = true →
  incoming method ("/" +:+ prefix +:+ secret) body
  = Some {| method := method; pathname := "/" +:+ prefix +:+ secret; body := body |}.
Proof.
  intros Hprefix Hsecret. unfold incoming, pathname_of_url.
  assert (all_plain_path (prefix +:+ secret) = true) as Hplain.
  { apply all_plain_path_app; [|by apply all_base64url_plain_path].
    by destruct Hprefix as [-> | ->]. }
  change ("/" +:+ prefix +:+ secret) with (String "/" (prefix +:+ secret)).
  cbv beta iota. rewrite Hplain, Ascii.eqb_refl.
  by destruct Hprefix as [-> | ->].
Qed.

Lemma list_route_served (secret body : string) (s : System) :
  secret ≠ EmptyString →
  has_line_terminator secret = false →
  let req := {| method := "GET"; pathname := "/api/subscriptions/" +:+ secret;
                body := body |} in
  ∃ resp, listener secret req s = Responded resp s
          ∧ status resp = 200%Z
          ∧ own <$> (JSON.parse (content resp) ≫= as_subscriptions) = Some (store s).
Proof.
  intros Hne Hlt req. unfold listener, handle. subst req.
  rewrite (route_subscriptions secret body Hne Hlt).
  unfold protected, checkSecret. rewrite String.eqb_refl. cbn [negb].
  eexists. split; [reflexivity|]. split; [reflexivity|].
  cbn [content json_response fst getSubscriptions]. unfold stringify.
  rewrite JSON_facts.parse_stringify_at by apply no_num_subscriptions.
  rewrite bind_Some_eq, as_subscriptions_to_json. reflexivity.
Qed.

(** The list route, called with the secret in the path, for a secret
    of base64url characters (what the server generates): the request
    reaches the listener with the secret as the last segment of its
    path, and is answered with status 200 and a body that [JSON.parse]
    reads back as the subscription map, without a change to anything. *)
Theorem list_route_returns_store (secret body : string) (s : System) :
  secret ≠ EmptyString →
  all_base64url secret = true →
  ∃ req resp,
    incoming "GET" ("/api/subscriptions/" +:+ secret) body = Some req
    ∧ listener secret req s = Responded resp s
    ∧ status resp = 200%Z
    ∧ own <$> (JSON.parse (content resp) ≫= as_subscriptions) = Some (store s).
Proof.
  intros Hne Hall.
  destruct (list_route_served secret body s Hne (all_base64url_one_line _ Hall))
    as (resp & Hresp).
  eexists _, resp. split; [|exact Hresp].
  apply (incoming_with_secret "GET" "api/subscriptions/"); [by left | done].
Qed.

(** A secret that is empty or holds a line terminator locks the two
    path routes: no request to the list or the push route is let
    through, whatever its path. *)
Theorem path_routes_locked_out (secret : string) (req : Request) (s : System)
    (segment : string) :
  secret = EmptyString ∨ has_line_terminator secret = true →
  route req = Protected (RouteSubscriptions segment)
  ∨ route req = Protected (RoutePush segment) →
  listener secret req s = Responded unauthorized s.
Proof.
  intros Hsecret Hroute.
  assert (segment ≠ EmptyString ∧ has_line_terminator segment = false) as [Hne Hlt].
  { unfold route in Hroute.
    destruct (String.eqb (method req) "OPTIONS"); [by destruct Hroute|].
    destruct (String.eqb (pathname req) "/api/public-key"); [by destruct Hroute|].
    destruct (_ && _); [by destruct Hroute|].
    destruct (_ && _); [by destruct Hroute|].
    destruct (capture "/api/subscriptions/" (pathname req)) as [seg|] eqn:Hs.
    - destruct (String.eqb (method req) "GET").
      + destruct Hroute as [[= <-]|[=]]. by apply capture_plain in Hs.
      + destruct (capture "/api/push/" (pathname req)) as [seg'|] eqn:Hp;
          [|by destruct Hroute].
        destruct (String.eqb (method req) "POST"); [|by destruct Hroute].
        destruct Hroute as [[=]|[= <-]]. by apply capture_plain in Hp.
    - destruct (capture "/api/push/" (pathname req)) as [seg'|] eqn:Hp;
        [|by destruct Hroute].
      destruct (String.eqb (method req) "POST"); [|by destruct Hroute].
      destruct Hroute as [[=]|[= <-]]. by apply capture_plain in Hp. }
  assert (String.eqb segment secret = false) as Hdiff.
  { apply String.eqb_neq. intros ->. destruct Hsecret; congruence. }
  unfold listener, handle.
  destruct Hroute as [-> | ->]; unfold protected, checkSecret; by rewrite Hdiff.
Qed.

Lemma push_route_served (secret title text : string) (url : option string)
    (s : System) :
  secret ≠ EmptyString →
  has_line_terminator secret = false →
  let req := {| method := "POST"; pathname := "/api/push/" +:+ secret;
                body := payload_of title text url |} in
  let result := push title text url s in
  listener secret req s
  = Responded
      (json_response 200
         (JObj [ ("success", JNum (pretty (success result.1)));
                 ("failed", JNum (pretty (failed result.1))) ]))
      result.2.
Proof.
  intros Hne Hlt req result. unfold listener, handle. subst req.
  rewrite (route_push secret _ Hne Hlt).
  unfold protected, checkSecret. rewrite String.eqb_refl. cbn [negb].
  unfold admitted. cbn [body]. unfold payload_of, stringify.
  rewrite JSON_facts.parse_stringify_at by (destruct url; simpl; tauto).
  subst result. destruct url as [u|]; cbn [app]; unfold perform.
  - assert (property (JObj [("title", JStr title); ("body", JStr text); ("url", JStr u)])
              "title" = Some (JStr title)) as -> by reflexivity.
    assert (property (JObj [("title", JStr title); ("body", JStr text); ("url", JStr u)])
              "body" = Some (JStr text)) as -> by reflexivity.
    assert (property (JObj [("title", JStr title); ("body", JStr text); ("url", JStr u)])
              "url" = Some (JStr u)) as -> by reflexivity.
    cbn [mbind option_bind as_string as_optional_string].
    by destruct (push title text (Some u) s).
  - assert (property (JObj [("title", JStr title); ("body", JStr text)])
              "title" = Some (JStr title)) as -> by reflexivity.
    assert (property (JObj [("title", JStr title); ("body", JStr text)])
              "body" = Some (JStr text)) as -> by reflexivity.
    assert (property (JObj [("title", JStr title); ("body", JStr text)])
              "url" = None) as -> by reflexivity.
    cbn [mbind option_bind as_string as_optional_string].
    by destruct (push title text None s).
Qed.

(** The push URL the server prints at start-up works for a secret of
    base64url characters (what the server generates): a POST to
    [/api/push/] followed by the secret reaches the listener with the
    secret as the last segment of its path, and with a body of the form
    [{title, body, url?}] it runs [push] with these three and is
    answered 200 with the two counts. *)
Theorem advertised_push_works (secret title text : string) (url : option string)
    (s : System) :
  secret ≠ EmptyString →
  all_base64url secret = true →
  let result := push title text url s in
  ∃ req,
    incoming "POST" ("/api/push/" +:+ secret) (payload_of title text url) = Some req
    ∧ listener secret req s
      = Responded
          (json_response 200
             (JObj [ ("success", JNum (pretty (success result.1)));
                     ("failed", JNum (pretty (failed result.1))) ]))
          result.2.
Proof.
  intros Hne Hall result. eexists. split.
  - apply (incoming_with_secret "POST" "api/push/"); [by right | done].
  - apply (push_route_served secret title text url s Hne).
    by apply all_base64url_one_line.
Qed.

End Service_properties.

(** ** The command line and the service worker *)

Section Edge_properties.
Import JSON.
#[local] Arguments append !_ _ : simpl nomatch.

Lemma strip_prefix_Some (p a r : string) :
  strip_prefix p a = Some r ↔ a = p +:+ r.
Proof.
  revert a. induction p as [|c p IH]; intros a; simpl.
  - split; [by intros [= ->] | by intros ->].
  - destruct a as [|d a]; [done|].
    destruct (Ascii.eqb_spec c d) as [<-|Hne].
    + rewrite IH. split; [by intros -> | by intros [= ->]].
    + split; [done | by intros [= ? _]].
Qed.

Lemma slice_app (p r : string) : slice (String.length p) (p +:+ r) = r.
Proof. induction p as [|c p IH]; [by destruct r | done]. Qed.

Lemma startsWith_true (p a : string) :
  startsWith p a = true ↔ ∃ r, a = p +:+ r.
Proof.
  unfold startsWith. destruct (strip_prefix p a) as [r|] eqn:E.
  - apply strip_prefix_Some in E. split; [eauto | done].
  - split; [done|]. intros [r Hr%strip_prefix_Some]. congruence.
Qed.

(** [getArg(name)] is the text after [--name=] in the first argument
    that starts with [--name=], and [undefined] exactly when no argument
    starts so. *)
Theorem getArg_first_match (args : list string) (name : string) :
  let prefix := "--" +:+ name +:+ "=" in
  (∀ value,
     getArg args name = Some value
     ↔ ∃ before after,
         args = (before ++ (prefix +:+ value) :: after)%list
         ∧ Forall (λ a, startsWith prefix a = false) before)
  ∧ (getArg args name = None ↔ Forall (λ a, startsWith prefix a = false) args).
Proof.
  intros prefix. unfold getArg. fold prefix. clearbody prefix.
  induction args as [|a args [IHsome IHnone]]; simpl.
  - split; [|done]. intros value. split; [done|].
    intros (before & after & Heq & _). by destruct before.
  - destruct (startsWith prefix a) eqn:Ha; simpl.
    + apply startsWith_true in Ha as [r ->]. rewrite slice_app. split.
      * intros value. split.
        -- intros [= ->]. exists [], args. by split.
        -- intros (before & after & Heq & Hbefore).
           destruct before as [|b before]; simpl in Heq.
           ++ injection Heq as Heq _. by apply (inj (append prefix)) in Heq as ->.
           ++ injection Heq as <- _. apply Forall_cons in Hbefore as [Hb _].
              assert (startsWith prefix (prefix +:+ r) = true) as Ht
                by (apply startsWith_true; eauto).
              congruence.
      * split; [done|]. intros [Hb _]%Forall_cons.
        assert (startsWith prefix (prefix +:+ r) = true) as Ht
          by (apply startsWith_true; eauto).
        congruence.
    + split.
      * intros value. rewrite IHsome. split.
        -- intros (before & after & -> & Hbefore).
           exists (a :: before), after. split; [done|]. by constructor.
        -- intros (before & after & Heq & Hbefore).
           destruct before as [|b before]; simpl in Heq.
           ++ injection Heq as -> _.
              assert (startsWith prefix (prefix +:+ value) = true) as Ht
                by (apply startsWith_true; eauto).
              congruence.
           ++ injection Heq as <- ->. apply Forall_cons in Hbefore as [_ Hbefore].
              eauto.
      * rewrite IHnone. split; [by constructor | by intros [_ ?]%Forall_cons].
Qed.

(** What a subscriber sees of a push: the payload that [push] and
    [pushTo] send is shown with its title ("vapush" when the title is
    empty) and its body, stays until dismissed, and a click on it opens
    the URL if one was given and is not empty, and only closes the
    notification otherwise. *)
Theorem push_payload_shown (title text : string) (url : option string) :
  let shown := {| shown_title := if String.eqb title EmptyString then "vapush" else title;
                  shown_body := text;
                  shown_icon := None;
                  shown_badge := None;
                  shown_url := JStr <$> url;
                  requireInteraction := true |} in
  on_push (Some (payload_of title text url)) = Shows shown
  ∧ on_click shown = match url with
                     | Some u => if String.eqb u EmptyString then ClosedOnly else Opened u
                     | None => ClosedOnly
                     end.
Proof.
  intros shown. split; [|by destruct url].
  unfold on_push, payload_of, stringify.
  rewrite JSON_facts.parse_stringify_at by (destruct url; simpl; tauto).
  subst shown. destruct url as [u|]; cbn [app fmap option_fmap option_map].
  - assert (∀ k, property (JObj [("title", JStr title); ("body", JStr text);
                                 ("url", JStr u)]) k
                 = if String.eqb k "url" then Some (JStr u)
                   else if String.eqb k "body" then Some (JStr text)
                   else if String.eqb k "title" then Some (JStr title) else None) as Hp.
    { intros k. cbn [property members_map foldl fst snd].
      destruct (String.eqb_spec k "url") as [->|?]; [by rewrite lookup_insert_eq|].
      rewrite lookup_insert_ne by done.
      destruct (String.eqb_spec k "body") as [->|?]; [by rewrite lookup_insert_eq|].
      rewrite lookup_insert_ne by done.
      destruct (String.eqb_spec k "title") as [->|?]; [by rewrite lookup_insert_eq|].
      by rewrite lookup_insert_ne by done. }
    rewrite !Hp. cbn [String.eqb Ascii.eqb Bool.eqb or_else].
    by destruct (String.eqb_spec text EmptyString) as [->|?].
  - assert (∀ k, property (JObj [("title", JStr title); ("body", JStr text)]) k
                 = if String.eqb k "body" then Some (JStr text)
                   else if String.eqb k "title" then Some (JStr title) else None) as Hp.
    { intros k. cbn [property members_map foldl fst snd].
      destruct (String.eqb_spec k "body") as [->|?]; [by rewrite lookup_insert_eq|].
      rewrite lookup_insert_ne by done.
      destruct (String.eqb_spec k "title") as [->|?]; [by rewrite lookup_insert_eq|].
      by rewrite lookup_insert_ne by done. }
    rewrite !Hp. cbn [String.eqb Ascii.eqb Bool.eqb or_else].
    by destruct (String.eqb_spec text EmptyString) as [->|?].
Qed.

End Edge_properties.

(** ** The further statements at concrete inputs *)

Section Further_witnesses.
Import JSON.


Lemma pushTo_delivers_witness :
  store serving !! "phone" = Some (record "https://push.example/ok" (Some "Phone"))
  ∧ (@pushTo scripted "phone" "Alert" "Disk full" None serving).1 = true.
Proof.
  assert (store serving !! "phone"
          = Some (record "https://push.example/ok" (Some "Phone"))) as Hr
    by (vm_compute; reflexivity).
  split; [exact Hr|].
  destruct (@pushTo_delivers scripted serving "phone" "Alert" "Disk full" None _ Hr)
    as (-> & _). reflexivity.
Defined.

Lemma pushTo_prunes_witness :
  store serving !! "tablet" = Some (record "https://push.example/gone" None)
  ∧ (@sendNotification scripted (Some (descriptor "https://push.example/gone"))
       (payload_of "Alert" "Disk full" None) (outside serving)).1
    = Rejected (Some 410%Z)
  ∧ store (@pushTo scripted "tablet" "Alert" "Disk full" None serving).2
    = delete "tablet" (store serving).
Proof.
  assert (store serving !! "tablet" = Some (record "https://push.example/gone" None))
    as Hr by (vm_compute; reflexivity).
  split; [exact Hr|]. split; [reflexivity|].
  destruct (@pushTo_prunes scripted serving "tablet" "Alert" "Disk full" None _ Hr)
    as (Hgone & _).
  apply Hgone. right. reflexivity.
Defined.

Lemma subscribe_inserts_witness :
  "phone" ≠ "__proto__"
  ∧ store (@subscribe scripted "phone" new_phone None serving).2
    = <["phone" := {| subscription := new_phone;
                      createdAt := "2024-05-01T12:00:00.000Z";
                      name := None |}]> (store serving).
Proof.
  split; [discriminate|].
  apply (@subscribe_inserts scripted serving "phone" new_phone None). discriminate.
Defined.

Lemma subscribe_then_unsubscribe_witness :
  "desk" ≠ "__proto__"
  ∧ store serving !! "desk" = None
  ∧ store (@unsubscribe scripted "desk"
             (@subscribe scripted "desk" new_phone None serving).2).2
    = store serving.
Proof.
  split; [discriminate|]. split; [vm_compute; reflexivity|].
  apply (@subscribe_then_unsubscribe scripted serving "desk" new_phone None).
  - discriminate.
  - vm_compute; reflexivity.
Defined.

Lemma unsubscribe_twice_witness :
  proto (this_subscriptions (this serving)) = ObjectPrototype
  ∧ inherited "phone" = false
  ∧ @unsubscribe scripted "phone" (@unsubscribe scripted "phone" serving).2
    = (false, (@unsubscribe scripted "phone" serving).2).
Proof.
  split; [reflexivity|]. split; [reflexivity|].
  apply (@unsubscribe_twice scripted serving "phone"); reflexivity.
Defined.

Lemma push_empty_witness :
  store fresh_start = ∅
  ∧ @push scripted "Alert" "Disk full" None fresh_start
    = ({| success := 0; failed := 0 |}, fresh_start).
Proof.
  split; [reflexivity|].
  apply (@push_empty scripted fresh_start "Alert" "Disk full" None). reflexivity.
Defined.


Lemma init_keeps_parsable_key_file_witness :
  files null_key_file !! "/srv/.vapush/vapid.json" ≫= JSON.parse = Some JNull
  ∧ @init scripted scripted_platform null_key_file
    = InitThrew (set_keys JNull null_key_file).
Proof.
  assert (files null_key_file !! "/srv/.vapush/vapid.json" ≫= JSON.parse = Some JNull)
    as Hk by (vm_compute; reflexivity).
  split; [exact Hk|].
  apply (@init_keeps_parsable_key_file scripted scripted_platform null_key_file JNull Hk).
  - reflexivity.
  - left. reflexivity.
Defined.

Lemma init_again_witness :
  @init scripted scripted_platform fresh_start = InitDone initialised
  ∧ ∃ s2, @init scripted scripted_platform (restart "mailto:admin@example.org" initialised)
          = InitDone s2
          ∧ getPublicKey s2 = getPublicKey initialised.
Proof.
  assert (@init scripted scripted_platform fresh_start = InitDone initialised) as Hinit
    by (vm_compute; reflexivity).
  split; [exact Hinit|].
  destruct (@init_again scripted scripted_platform fresh_start initialised
              "mailto:admin@example.org" Hinit) as (s2 & Hagain & _ & Hkey & _).
  exists s2. split; assumption.
Defined.

Lemma one_subscriber_durable : durable one_subscriber.
Proof. apply subscribe_durable. Qed.

Lemma init_restores_witness :
  durable one_subscriber
  ∧ @init scripted scripted_platform (restart "mailto:admin@example.org" one_subscriber)
    = InitDone reloaded
  ∧ store reloaded = store one_subscriber.
Proof.
  assert (@init scripted scripted_platform
            (restart "mailto:admin@example.org" one_subscriber)
          = InitDone reloaded) as Hinit by (vm_compute; reflexivity).
  split; [exact one_subscriber_durable|]. split; [exact Hinit|].
  exact (@init_restores scripted scripted_platform one_subscriber reloaded
           "mailto:admin@example.org" one_subscriber_durable Hinit).
Defined.


Lemma first_start_listening :
  @createServer scripted scripted_platform "/srv/.vapush" no_options ∅
    (0 : @world scripted)
  = Listening served_secret first_listening.
Proof. vm_compute. reflexivity. Qed.

Lemma createServer_restart_witness :
  @createServer scripted scripted_platform "/srv/.vapush" no_options ∅
    (0 : @world scripted)
  = Listening served_secret first_listening
  ∧ ∃ s', @createServer scripted scripted_platform "/srv/.vapush" later_options
            (files first_listening) (7 : @world scripted)
          = Listening served_secret s'
          ∧ getPublicKey s' = getPublicKey first_listening
          ∧ trace s' = [].
Proof.
  split; [exact first_start_listening|].
  destruct (@createServer_restart scripted scripted_platform "/srv/.vapush" no_options
              later_options ∅ (files first_listening) (0 : @world scripted)
              (7 : @world scripted) served_secret first_listening empty_object
              first_start_listening eq_refl eq_refl eq_refl)
    as (s' & Hstart & _ & Hkey & _ & _ & _ & Htrace & Hsame);
    [vm_compute; reflexivity|].
  exists s'. rewrite <- (Hsame (or_intror eq_refl)) at 1.
  split; [exact Hstart|]. split; assumption.
Defined.

Lemma public_key_served_witness :
  @createServer scripted scripted_platform "/srv/.vapush" no_options ∅
    (0 : @world scripted)
  = Listening served_secret first_listening
  ∧ method public_key_request ≠ "OPTIONS"
  ∧ listener served_secret public_key_request first_listening
    = Responded
        (json_response 200 (public_key_body (Some (JStr "BPublicKey"))))
        first_listening.
Proof.
  split; [exact first_start_listening|]. split; [discriminate|].
  apply (@public_key_served scripted scripted_platform "/srv/.vapush" no_options ∅
           (0 : @world scripted) served_secret first_listening
           {| publicKey := "BPublicKey"; privateKey := "PrivateKey";
              subject := "mailto:vapush@localhost" |}
           public_key_request first_start_listening).
  - vm_compute. reflexivity.
  - discriminate.
  - reflexivity.
Defined.

Lemma push_request_served :
  listener served_secret push_request serving
  = Responded
      (json_response 200 (JObj [ ("success", JNum "1"); ("failed", JNum "2") ]))
      (@push scripted "Alert" "Disk full" None serving).2.
Proof. vm_compute. reflexivity. Qed.

Lemma requests_touch_only_subscriptions_witness :
  listener served_secret push_request serving
  = Responded
      (json_response 200 (JObj [ ("success", JNum "1"); ("failed", JNum "2") ]))
      (@push scripted "Alert" "Disk full" None serving).2
  ∧ only_subscriptions_touched serving (@push scripted "Alert" "Disk full" None serving).2.
Proof.
  split; [exact push_request_served|].
  apply (@requests_touch_only_subscriptions scripted served_secret push_request serving
           _ _ push_request_served).
Defined.

Lemma state_change_needs_secret_witness :
  listener served_secret push_request serving
  = Responded
      (json_response 200 (JObj [ ("success", JNum "1"); ("failed", JNum "2") ]))
      (@push scripted "Alert" "Disk full" None serving).2
  ∧ (@push scripted "Alert" "Disk full" None serving).2 ≠ serving
  ∧ supplied push_request = Some (Some (JStr served_secret)).
Proof.
  assert ((@push scripted "Alert" "Disk full" None serving).2 ≠ serving) as Hne.
  { intros E. apply (f_equal (λ s, length (trace s))) in E. vm_compute in E.
    discriminate E. }
  split; [exact push_request_served|]. split; [exact Hne|].
  exact (@state_change_needs_secret scripted served_secret push_request serving _ _
           push_request_served Hne).
Defined.

Lemma list_route_returns_store_witness :
  served_secret ≠ EmptyString
  ∧ all_base64url served_secret = true
  ∧ ∃ req resp,
      incoming "GET" ("/api/subscriptions/" +:+ served_secret) EmptyString = Some req
      ∧ listener served_secret req serving = Responded resp serving
      ∧ status resp = 200%Z
      ∧ own <$> (JSON.parse (content resp) ≫= as_subscriptions) = Some (store serving).
Proof.
  split; [discriminate|]. split; [reflexivity|].
  apply (@list_route_returns_store scripted served_secret EmptyString serving).
  - discriminate.
  - reflexivity.
Defined.

Lemma path_routes_locked_out_witness :
  route {| method := "POST"; pathname := "/api/push/x"; body := EmptyString |}
  = Protected (RoutePush "x")
  ∧ listener EmptyString
      {| method := "POST"; pathname := "/api/push/x"; body := EmptyString |} serving
    = Responded unauthorized serving.
Proof.
  split; [reflexivity|].
  apply (@path_routes_locked_out scripted EmptyString
           {| method := "POST"; pathname := "/api/push/x"; body := EmptyString |}
           serving "x").
  - left. reflexivity.
  - right. reflexivity.
Defined.

Lemma advertised_push_works_witness :
  served_secret ≠ EmptyString
  ∧ all_base64url served_secret = true
  ∧ ∃ req,
      incoming "POST" ("/api/push/" +:+ served_secret)
        (payload_of "Alert" "Disk full" None) = Some req
      ∧ listener served_secret req serving
        = Responded
            (json_response 200
               (JObj [ ("success",
                        JNum (pretty (success
                                        (@push scripted "Alert" "Disk full" None
                                           serving).1)));
                       ("failed",
                        JNum (pretty (failed
                                        (@push scripted "Alert" "Disk full" None
                                           serving).1))) ]))
            (@push scripted "Alert" "Disk full" None serving).2.
Proof.
  split; [discriminate|]. split; [reflexivity|].
  apply (@advertised_push_works scripted served_secret "Alert" "Disk full" None serving).
  - discriminate.
  - reflexivity.
Defined.

End Further_witnesses.
